(** * Project tracker: task-dependency consistency engine

    A shallow embedding of [project-tracker/src/types_.py], the parts of
    [storage.py] that the tools call, and the dependency closure, current-task
    resolution and status transition of [tools.py].

    Python values are modelled as follows.
    - [str] is [string]; [Optional[str]] is [option string].
    - [int] is [Z] (the summary counters are read from JSON and may hold any
      integer before they are recomputed).
    - [dict[str, TaskStatus]] is an association list in insertion order
      ([odict]): iteration order decides which task is current.
    - [set[str]] is [gset string]; the function map built by a dict
      comprehension is only ever looked up, so it is a [gmap].
    - [datetime.now().isoformat()] is an argument of the operation.
    - [StorageError] is the error branch of a [result]. *)

From stdpp Require Import base numbers list strings gmap sets.

#[local] Set Warnings "-clear-no-such-hyp".

Open Scope string_scope.
Open Scope list_scope.
Open Scope Z_scope.

(** ** types_.py *)

Inductive TaskStatusEnum := PENDING | IN_PROGRESS | COMPLETED | BLOCKED.

#[global] Instance TaskStatusEnum_eq_dec : EqDecision TaskStatusEnum.
Proof. solve_decision. Defined.

(** [TaskStatusEnum.value] *)
Definition status_value (s : TaskStatusEnum) : string :=
  match s with
  | PENDING => "pending"
  | IN_PROGRESS => "in_progress"
  | COMPLETED => "completed"
  | BLOCKED => "blocked"
  end.

(** [TaskStatusEnum(status)]; [None] stands for the [ValueError]. *)
Definition parse_status (s : string) : option TaskStatusEnum :=
  if String.eqb s "pending" then Some PENDING
  else if String.eqb s "in_progress" then Some IN_PROGRESS
  else if String.eqb s "completed" then Some COMPLETED
  else if String.eqb s "blocked" then Some BLOCKED
  else None.

Record FunctionDef := mkFunctionDef {
  f_id : string;
  f_name : string;
  f_file : string;
  f_test_file : option string;
  f_signature : string;
  f_business_logic : string;
  f_code_logic : string;
  f_test_cases : list string;
  f_dependencies : list string;
  f_called_by : list string;
  f_uses : list string
}.

Record TaskStatus := mkTaskStatus {
  t_id : string;
  t_status : TaskStatusEnum;
  t_notes : option string;
  t_updated_at : string
}.

Record ProjectProgress := mkProjectProgress {
  s_project_name : string;
  s_total : Z;
  s_completed : Z;
  s_in_progress : Z;
  s_pending : Z;
  s_blocked : Z;
  s_current_task : option string
}.

Record ChangeLogEntry := mkChangeLogEntry {
  c_date : option string;
  c_timestamp : option string;
  c_function_id : option string;
  c_action : option string;
  c_description : string;
  c_author : option string
}.

(** ** Insertion-ordered dictionaries *)

Definition odict (V : Type) := list (string * V).

Fixpoint dict_get {V} (k : string) (d : odict V) : option V :=
  match d with
  | [] => None
  | (k', v) :: d' => if String.eqb k' k then Some v else dict_get k d'
  end.

(** [d[k] = v]: an existing key keeps its position, a new key goes last. *)
Fixpoint dict_set {V} (k : string) (v : V) (d : odict V) : odict V :=
  match d with
  | [] => [(k, v)]
  | (k', v') :: d' =>
      if String.eqb k' k then (k, v) :: d' else (k', v') :: dict_set k v d'
  end.

Definition dict_keys {V} (d : odict V) : list string := map fst d.
Definition dict_values {V} (d : odict V) : list V := map snd d.

(** A Python dict holds each key once. *)
Definition dict_wf {V} (d : odict V) : Prop := NoDup (dict_keys d).

Record ProgressData := mkProgressData {
  p_project_name : string;
  p_summary : ProjectProgress;
  p_tasks : odict TaskStatus;
  p_changelog : list ChangeLogEntry
}.

(** ** storage.py *)

Inductive result (A : Type) :=
  | Raise (err : string)
  | Ok (a : A).
Arguments Raise {A} err.
Arguments Ok {A} a.

(** A raised [StorageError] skips the rest of the [try] block. *)
#[global] Instance result_bind : MBind result := λ A B k r,
  match r with
  | Raise e => Raise e
  | Ok a => k a
  end.

(** The [docs] directory of one project.  [functions_json] is what
    [read_functions] produces: the parsed catalog, or the message of the
    [StorageError] it raises (file missing, unreadable, wrong shape).
    [progress_json] is [None] when [progress.json] does not exist, and
    otherwise what parsing it produces.  [dir_name] is
    [Path(project_path).name].  [writable] tells whether writing
    [progress.json] goes through; when it does not, [_write_json_file]
    raises [StorageError] with [write_error].  What a failed write leaves
    behind is [after_failed_write]: [None] when the file was not touched
    (the directory or the file could not be opened), and otherwise what
    reading the file yields afterwards, since [open(file_path, "w")]
    empties the file before [json.dump] can fail. *)
Record Store := mkStore {
  dir_name : string;
  functions_json : result (list FunctionDef);
  progress_json : option (result ProgressData);
  writable : bool;
  write_error : string;
  after_failed_write : option (result ProgressData)
}.

(** The same directory with another state of [progress.json]. *)
Definition with_progress (st : Store) (file : option (result ProgressData)) : Store :=
  mkStore (dir_name st) (functions_json st) file (writable st) (write_error st)
    (after_failed_write st).

Definition read_functions (st : Store) : result (list FunctionDef) :=
  functions_json st.

Definition default_TaskStatus (id : string) (status : TaskStatusEnum) (now : string)
  : TaskStatus :=
  mkTaskStatus id status (Some "") now.

Definition default_ProjectProgress : ProjectProgress :=
  mkProjectProgress "" 0 0 0 0 0 None.

(** The clock as one read sees it: [now i] is what the call number [i] of
    [datetime.now().isoformat()] returns.  A string stands for the clock
    that answers it every time. *)
Definition readings := nat → string.

Definition steady (reading : string) : readings := fun _ => reading.
Coercion steady : string >-> readings.

(** The loop of [_init_progress_from_functions]: the default of
    [updated_at] reads the clock once for every [TaskStatus] it builds. *)
Fixpoint seed_tasks (now : readings) (index : nat) (functions : list FunctionDef)
    (tasks : odict TaskStatus) : odict TaskStatus :=
  match functions with
  | [] => tasks
  | func :: rest =>
      seed_tasks now (S index) rest
        (dict_set (f_id func) (default_TaskStatus (f_id func) PENDING (now index)) tasks)
  end.

Definition _init_progress_from_functions (st : Store) (now : readings) : ProgressData :=
  match read_functions st with
  | Raise _ =>
      mkProgressData "" (mkProjectProgress "Unknown" 0 0 0 0 0 None) [] []
  | Ok functions =>
      let tasks := seed_tasks now 0 functions [] in
      let total := Z.of_nat (length functions) in
      mkProgressData ""
        (mkProjectProgress (dir_name st) total 0 0 total 0 None) tasks []
  end.

Definition read_progress (st : Store) (now : readings) : result ProgressData :=
  match progress_json st with
  | None => Ok (_init_progress_from_functions st now)
  | Some r => r
  end.

(** [write_progress] dumps [summary], [tasks] and [changelog]; the top-level
    project name is not written, so a later read finds it empty.  The
    result is the directory after the call and whether the call raised. *)
Definition write_progress (st : Store) (progress_data : ProgressData)
  : Store * result unit :=
  if writable st then
    (with_progress st
       (Some (Ok (mkProgressData "" (p_summary progress_data)
                    (p_tasks progress_data) (p_changelog progress_data)))),
     Ok tt)
  else
    (match after_failed_write st with
     | None => st
     | Some leftover => with_progress st (Some leftover)
     end,
     Raise (write_error st)).

(** The search loop of [get_function_by_id]: first entry with that id. *)
Fixpoint find_function (functions : list FunctionDef) (func_id : string)
  : option FunctionDef :=
  match functions with
  | [] => None
  | func :: rest =>
      if String.eqb (f_id func) func_id then Some func else find_function rest func_id
  end.

Definition get_function_by_id (st : Store) (func_id : string)
  : result (option FunctionDef) :=
  functions ← read_functions st;
  Ok (find_function functions func_id).

(** [{func.id: func for func in functions}]: a later entry replaces an
    earlier one with the same id. *)
Definition make_func_map (functions : list FunctionDef) : gmap string FunctionDef :=
  fold_left (fun m func => <[f_id func := func]> m) functions ∅.

Definition get_functions_by_ids (st : Store) (func_ids : list string)
  : result (list FunctionDef) :=
  functions ← read_functions st;
  let func_map := make_func_map functions in
  Ok (omap (fun func_id => func_map !! func_id) func_ids).

(** ** tools.py: the dependency closure loop *)

(** The two variables of the [while to_process:] loop. *)
Record closure_state := mkClosure {
  all_dep_ids : gset string;
  to_process : list string
}.

Section closure.
(** [get_function_with_deps] looks an id up with [get_function_by_id],
    [get_current_task_context] with [func_map.get]. *)
Variable lookup : string → option FunctionDef.

(** One iteration of the loop body, for a non-empty [to_process]:
    [dep_id = to_process.pop(0)] and what follows. *)
Definition closure_body (visited : gset string) (dep_id : string) (rest : list string)
  : closure_state :=
  if decide (dep_id ∈ visited) then mkClosure visited rest
  else
    let visited' := visited ∪ {[ dep_id ]} in
    match lookup dep_id with
    | Some dep_func =>
        mkClosure visited'
          (rest ++ filter (fun nested_dep => nested_dep ∉ visited')
                          (f_dependencies dep_func))
    | None => mkClosure visited' rest
    end.

(** [fuel] iterations of [while to_process: ...], stopping early when the
    loop condition fails. *)
Fixpoint closure_loop (fuel : nat) (s : closure_state) : closure_state :=
  match fuel with
  | O => s
  | S fuel' =>
      match to_process s with
      | [] => s
      | dep_id :: rest => closure_loop fuel' (closure_body (all_dep_ids s) dep_id rest)
      end
  end.
End closure.

(** Every id that some catalog entry declares as a dependency. *)
Definition declared_deps (functions : list FunctionDef) : gset string :=
  ⋃ (map (fun func => list_to_set (f_dependencies func)) functions).

(** The longest dependency list of the catalog. *)
Definition max_deps (functions : list FunctionDef) : nat :=
  foldr (fun func m => Nat.max (length (f_dependencies func)) m) O functions.

Definition pending_ids (functions : list FunctionDef) (s : closure_state) : gset string :=
  (list_to_set (to_process s) ∪ declared_deps functions) ∖ all_dep_ids s.

(** A number of iterations after which the loop has exited
    (see [closure_loop_exits]): every iteration takes one id off the
    worklist, and only the first visit of an id puts ids on it. *)
Definition closure_fuel (functions : list FunctionDef) (s : closure_state) : nat :=
  (length (to_process s) + S (max_deps functions) * size (pending_ids functions s))%nat.

(** Lines 199-211 and 469-480: the loop run from an empty visited set. *)
Definition collect_deps (functions : list FunctionDef)
    (lookup : string → option FunctionDef) (dependencies : list string) : closure_state :=
  let s0 := mkClosure ∅ dependencies in
  closure_loop lookup (closure_fuel functions s0) s0.

(** ** tools.py: responses *)

(** A tool answers with [_format_error] or [_format_success]; an exception
    other than [StorageError] is not caught and leaves the tool. *)
Inductive response (A : Type) :=
  | Failure (error : string)
  | Success (data : A)
  | Uncaught (exception : string).
Arguments Failure {A} error.
Arguments Success {A} data.
Arguments Uncaught {A} exception.

(** [completed / total] on two ints is the correctly rounded float quotient
    and raises [OverflowError] when that is beyond the largest float, that
    is from this ratio on (half a unit in the last place above the largest
    float, where rounding goes up to 2^1024). *)
Definition float_overflow_bound : Z := 2 ^ 1024 - 2 ^ 970.

Definition division_overflows (completed total : Z) : bool :=
  float_overflow_bound * Z.abs total <=? Z.abs completed.

(** Lines 59-61 and 407-409: the division is only made for a positive
    total; the product with 100 and [round(_, 1)] do not raise. *)
Definition rate_raises (summary : ProjectProgress) : bool :=
  if 0 <? s_total summary
  then division_overflows (s_completed summary) (s_total summary)
  else false.

(** [task_status.status.value if task_status else "unknown"] *)
Definition status_of (progress : ProgressData) (func_id : string) : string :=
  match dict_get func_id (p_tasks progress) with
  | Some task_status => status_value (t_status task_status)
  | None => "unknown"
  end.

(** The dict that [func_to_dict] of [get_function_with_deps] builds. *)
Record FuncDict := mkFuncDict {
  fd_id : string;
  fd_name : string;
  fd_file : string;
  fd_signature : string;
  fd_business_logic : string;
  fd_code_logic : string;
  fd_dependencies : list string;
  fd_uses : list string;
  fd_status : string
}.

Definition func_to_dict (progress : ProgressData) (func : FunctionDef) : FuncDict :=
  mkFuncDict (f_id func) (f_name func) (f_file func) (f_signature func)
    (f_business_logic func) (f_code_logic func) (f_dependencies func) (f_uses func)
    (status_of progress (f_id func)).

Record WithDeps := mkWithDeps {
  wd_main_function : FuncDict;
  wd_dependencies : list FuncDict;
  wd_total_dependencies : Z
}.

(** ** tools.py: [get_function_with_deps] *)

(** [list(all_dep_ids)] and [for dep_id in all_dep_ids]: Python fixes no
    order for the elements of a set; [elements] is one order. *)
Definition set_to_list (s : gset string) : list string := elements s.

(** [get_function_by_id(project_path, dep_id)] inside the loop.  The read
    of the catalog cannot raise there: the same read has just produced the
    main function, and the operation does not write the catalog. *)
Definition store_lookup (st : Store) (dep_id : string) : option FunctionDef :=
  match get_function_by_id st dep_id with
  | Ok dep_func => dep_func
  | Raise _ => None
  end.

(** The catalog that those reads see. *)
Definition store_functions (st : Store) : list FunctionDef :=
  match read_functions st with
  | Ok functions => functions
  | Raise _ => []
  end.

Definition get_function_with_deps (st : Store) (function_id : string) (now : readings)
  : response WithDeps :=
  match get_function_by_id st function_id with
  | Raise e => Failure e
  | Ok None => Failure ("找不到函数: " +:+ function_id)
  | Ok (Some main_func) =>
      let final :=
        collect_deps (store_functions st) (store_lookup st) (f_dependencies main_func) in
      match get_functions_by_ids st (set_to_list (all_dep_ids final)) with
      | Raise e => Failure e
      | Ok dep_funcs =>
          match read_progress st now with
          | Raise e => Failure e
          | Ok progress =>
              Success (mkWithDeps (func_to_dict progress main_func)
                         (map (func_to_dict progress) dep_funcs)
                         (Z.of_nat (length dep_funcs)))
          end
      end
  end.

(** ** tools.py: [update_task_status] *)

Definition count_task (acc : Z * Z * Z * Z) (task : TaskStatus) : Z * Z * Z * Z :=
  let '(completed, in_progress, pending, blocked) := acc in
  match t_status task with
  | COMPLETED => (completed + 1, in_progress, pending, blocked)
  | IN_PROGRESS => (completed, in_progress + 1, pending, blocked)
  | PENDING => (completed, in_progress, pending + 1, blocked)
  | BLOCKED => (completed, in_progress, pending, blocked + 1)
  end.

Definition _recalculate_summary (progress : ProgressData) : ProgressData :=
  let '(completed, in_progress, pending, blocked) :=
    fold_left count_task (dict_values (p_tasks progress)) (0, 0, 0, 0) in
  let summary := p_summary progress in
  mkProgressData (p_project_name progress)
    (mkProjectProgress (s_project_name summary)
       (Z.of_nat (length (p_tasks progress)))
       completed in_progress pending blocked
       (s_current_task summary))
    (p_tasks progress) (p_changelog progress).

Definition set_current_task (progress : ProgressData) (current : option string)
  : ProgressData :=
  let summary := p_summary progress in
  mkProgressData (p_project_name progress)
    (mkProjectProgress (s_project_name summary) (s_total summary)
       (s_completed summary) (s_in_progress summary) (s_pending summary)
       (s_blocked summary) current)
    (p_tasks progress) (p_changelog progress).

Record SummaryCounts := mkSummaryCounts {
  sc_total : Z;
  sc_completed : Z;
  sc_in_progress : Z;
  sc_pending : Z;
  sc_blocked : Z
}.

Record UpdateResult := mkUpdateResult {
  ur_function_id : string;
  ur_new_status : string;
  ur_notes : option string;
  ur_updated_at : option string;
  ur_summary : SummaryCounts
}.

(** The values that the calls of [datetime.now().isoformat()] return during
    one [update_task_status]: the readings for the default [updated_at] of
    the tasks seeded by [read_progress], the [updated_at] of the task (line
    284 or 291), and the timestamp of the change-log entry (line 298). *)
Record Clock := mkClock {
  now_init : readings;
  now_task : string;
  now_log : string
}.

Definition status_change_entry (function_id : string)
    (old_status new_status : TaskStatusEnum) (timestamp : string) : ChangeLogEntry :=
  mkChangeLogEntry None (Some timestamp) (Some function_id) (Some "status_change")
    ("状态从 " +:+ status_value old_status +:+ " 变更为 " +:+ status_value new_status)
    None.

(** Lines 301-325: recompute the summary, move the current-task pointer,
    save, and build the answer.  [progress.tasks[function_id]] of line 317
    reads the entry that was just set, so the lookup finds it. *)
Definition finish_update (st : Store) (progress : ProgressData)
    (function_id : string) (new_status : TaskStatusEnum) (notes : option string)
  : Store * response UpdateResult :=
  let progress := _recalculate_summary progress in
  let progress :=
    if decide (new_status = IN_PROGRESS) then set_current_task progress (Some function_id)
    else if decide (s_current_task (p_summary progress) = Some function_id)
         then set_current_task progress None
         else progress in
  let '(st', written) := write_progress st progress in
  match written with
  | Raise e => (st', Failure e)
  | Ok _ =>
      let summary := p_summary progress in
      (st', Success (mkUpdateResult function_id (status_value new_status) notes
                       (t_updated_at <$> dict_get function_id (p_tasks progress))
                       (mkSummaryCounts (s_total summary) (s_completed summary)
                          (s_in_progress summary) (s_pending summary)
                          (s_blocked summary))))
  end.

Definition valid_statuses : string := "pending, in_progress, completed, blocked".

Definition update_task_status (st : Store) (function_id status : string)
    (notes : option string) (clock : Clock) : Store * response UpdateResult :=
  match parse_status status with
  | None => (st, Failure ("无效的状态: " +:+ status +:+ "。有效值: " +:+ valid_statuses))
  | Some new_status =>
      match read_progress st (now_init clock) with
      | Raise e => (st, Failure e)
      | Ok progress =>
          match dict_get function_id (p_tasks progress) with
          | None =>
              match get_function_by_id st function_id with
              | Raise e => (st, Failure e)
              | Ok None => (st, Failure ("找不到函数: " +:+ function_id))
              | Ok (Some func) =>
                  let tasks :=
                    dict_set function_id
                      (mkTaskStatus function_id new_status notes (now_task clock))
                      (p_tasks progress) in
                  finish_update st
                    (mkProgressData (p_project_name progress) (p_summary progress)
                       tasks (p_changelog progress))
                    function_id new_status notes
              end
          | Some task =>
              let old_status := t_status task in
              let tasks :=
                dict_set function_id
                  (mkTaskStatus (t_id task) new_status notes (now_task clock))
                  (p_tasks progress) in
              let changelog :=
                p_changelog progress ++
                [status_change_entry function_id old_status new_status (now_log clock)] in
              finish_update st
                (mkProgressData (p_project_name progress) (p_summary progress)
                   tasks changelog)
                function_id new_status notes
          end
      end
  end.

(** ** tools.py: [get_current_task_context] *)

Section resolve.
Variable func_map : gmap string FunctionDef.
Variable tasks : odict TaskStatus.

(** The [for dep_id in func.dependencies] loop of [is_task_ready]. *)
Fixpoint deps_completed (dependencies : list string) : bool :=
  match dependencies with
  | [] => true
  | dep_id :: rest =>
      match dict_get dep_id tasks with
      | None => false
      | Some dep_task =>
          if decide (t_status dep_task ≠ COMPLETED) then false
          else deps_completed rest
      end
  end.

Definition is_task_ready (func_id : string) : bool :=
  match func_map !! func_id with
  | None => false
  | Some func =>
      match f_dependencies func with
      | [] => true
      | _ => deps_completed (f_dependencies func)
      end
  end.

(** The scan of lines 436-443 over the remaining items of
    [progress.tasks.items()].  A selected task is kept with its key, which
    names the dict entry the Python variable refers to. *)
Fixpoint scan_tasks (items : odict TaskStatus)
    (in_progress_task ready_pending_task : option (string * TaskStatus))
  : option (string * TaskStatus) * option (string * TaskStatus) :=
  match items with
  | [] => (in_progress_task, ready_pending_task)
  | (func_id, task) :: rest =>
      if bool_decide (t_status task = IN_PROGRESS) && bool_decide (in_progress_task = None)
      then (Some (func_id, task), ready_pending_task)
      else if bool_decide (t_status task = PENDING)
              && bool_decide (ready_pending_task = None)
      then
        if is_task_ready func_id
        then scan_tasks rest in_progress_task (Some (func_id, task))
        else scan_tasks rest in_progress_task ready_pending_task
      else scan_tasks rest in_progress_task ready_pending_task
  end.

(** [current_task = in_progress_task or ready_pending_task] *)
Definition resolve_current_task : option (string * TaskStatus) :=
  let '(in_progress_task, ready_pending_task) := scan_tasks tasks None None in
  match in_progress_task with
  | Some entry => Some entry
  | None => ready_pending_task
  end.
End resolve.

(** The [project_status] dict without the text of [completion_rate], a
    rounded float that is only displayed; that computing it can raise is
    [rate_raises]. *)
Record ProjectStatus := mkProjectStatus {
  ps_project_name : string;
  ps_total_tasks : Z;
  ps_completed : Z;
  ps_in_progress : Z;
  ps_pending : Z;
  ps_blocked : Z
}.

(** [func_to_dict(func, include_full=False)] *)
Record FuncBrief := mkFuncBrief {
  fb_id : string;
  fb_name : string;
  fb_file : string;
  fb_signature : string;
  fb_status : string
}.

(** [func_to_dict(func, include_full=True)] *)
Record FuncFull := mkFuncFull {
  ff_brief : FuncBrief;
  ff_test_file : option string;
  ff_business_logic : string;
  ff_code_logic : string;
  ff_test_cases : list string;
  ff_dependencies : list string;
  ff_called_by : list string;
  ff_uses : list string
}.

Definition func_brief (progress : ProgressData) (func : FunctionDef) : FuncBrief :=
  mkFuncBrief (f_id func) (f_name func) (f_file func) (f_signature func)
    (status_of progress (f_id func)).

Definition func_full (progress : ProgressData) (func : FunctionDef) : FuncFull :=
  mkFuncFull (func_brief progress func) (f_test_file func) (f_business_logic func)
    (f_code_logic func) (f_test_cases func) (f_dependencies func) (f_called_by func)
    (f_uses func).

Record CurrentTask := mkCurrentTask {
  ct_task_id : string;
  ct_status : string;
  ct_notes : option string;
  ct_function : FuncFull
}.

Record TaskContext := mkTaskContext {
  tc_project_status : ProjectStatus;
  tc_current_task : option CurrentTask;
  tc_dependencies : list FuncBrief;
  tc_total_dependencies : Z
}.

(** [progress.project_name or summary.project_name] and the counters. *)
Definition project_status (progress : ProgressData) : ProjectStatus :=
  let summary := p_summary progress in
  mkProjectStatus
    (if String.eqb (p_project_name progress) "" then s_project_name summary
     else p_project_name progress)
    (s_total summary) (s_completed summary) (s_in_progress summary)
    (s_pending summary) (s_blocked summary).

(** The answer without a current task carries a message and no dependency
    keys; here it is the context with [tc_current_task = None]. *)
Definition get_current_task_context (st : Store) (now : readings) : response TaskContext :=
  match read_progress st now with
  | Raise e => Failure e
  | Ok progress =>
      if rate_raises (p_summary progress) then Uncaught "OverflowError" else
      match read_functions st with
      | Raise e => Failure e
      | Ok functions =>
          let func_map := make_func_map functions in
          match resolve_current_task func_map (p_tasks progress) with
          | None => Success (mkTaskContext (project_status progress) None [] 0)
          | Some (_, current_task) =>
              match func_map !! t_id current_task with
              | None => Failure ("找不到函数定义: " +:+ t_id current_task)
              | Some func_def =>
                  let final :=
                    collect_deps functions (fun dep_id => func_map !! dep_id)
                      (f_dependencies func_def) in
                  let dep_funcs :=
                    omap (fun dep_id => func_map !! dep_id)
                      (set_to_list (all_dep_ids final)) in
                  Success (mkTaskContext (project_status progress)
                             (Some (mkCurrentTask (t_id current_task)
                                      (status_value (t_status current_task))
                                      (t_notes current_task)
                                      (func_full progress func_def)))
                             (map (func_brief progress) dep_funcs)
                             (Z.of_nat (length dep_funcs)))
              end
          end
      end
  end.

(** ** storage.py: [get_all_function_ids] *)

Definition get_all_function_ids (st : Store) : result (list string) :=
  functions ← read_functions st;
  Ok (map f_id functions).

(** ** tools.py: [get_project_status] *)

Record StatusOverview := mkStatusOverview {
  so_project_name : string;
  so_total_tasks : Z;
  so_completed : Z;
  so_in_progress : Z;
  so_pending : Z;
  so_blocked : Z;
  so_completion_rate : string;
  so_current_task : option string
}.

Section project_status.
(** [f"{round(summary.completed / summary.total * 100, 1)}%"] for a positive
    total whose division does not raise: a float division and rounding,
    kept as a function of the two counters. *)
Variable format_rate : Z → Z → string.

(** Lines 59-61 and 70: the rate stays [0.0] unless the total is positive. *)
Definition completion_rate (summary : ProjectProgress) : string :=
  if 0 <? s_total summary then format_rate (s_completed summary) (s_total summary)
  else "0.0%".

Definition get_project_status (st : Store) (now : readings) : response StatusOverview :=
  match read_progress st now with
  | Raise e => Failure e
  | Ok progress =>
      let summary := p_summary progress in
      if rate_raises summary then Uncaught "OverflowError" else
      Success (mkStatusOverview (s_project_name summary) (s_total summary)
                 (s_completed summary) (s_in_progress summary) (s_pending summary)
                 (s_blocked summary) (completion_rate summary)
                 (s_current_task summary))
  end.
End project_status.

(** ** tools.py: [get_current_task] *)

(** The scan of lines 100-105; as in [scan_tasks], a selected task is kept
    with its key. *)
Fixpoint scan_first_pending (items : odict TaskStatus)
    (in_progress_task first_pending_task : option (string * TaskStatus))
  : option (string * TaskStatus) * option (string * TaskStatus) :=
  match items with
  | [] => (in_progress_task, first_pending_task)
  | (func_id, task) :: rest =>
      if bool_decide (t_status task = IN_PROGRESS) && bool_decide (in_progress_task = None)
      then (Some (func_id, task), first_pending_task)
      else if bool_decide (t_status task = PENDING)
              && bool_decide (first_pending_task = None)
      then scan_first_pending rest in_progress_task (Some (func_id, task))
      else scan_first_pending rest in_progress_task first_pending_task
  end.

(** [current_task = in_progress_task or first_pending_task] *)
Definition select_current_task (tasks : odict TaskStatus) : option (string * TaskStatus) :=
  let '(in_progress_task, first_pending_task) := scan_first_pending tasks None None in
  match in_progress_task with
  | Some entry => Some entry
  | None => first_pending_task
  end.

(** The [function] dict of the answer of [get_current_task]. *)
Record TaskFunction := mkTaskFunction {
  tf_name : string;
  tf_file : string;
  tf_signature : string;
  tf_business_logic : string;
  tf_code_logic : string;
  tf_test_file : option string;
  tf_test_cases : list string;
  tf_dependencies : list string;
  tf_uses : list string
}.

Record TaskDetail := mkTaskDetail {
  td_task_id : string;
  td_status : string;
  td_notes : option string;
  td_function : TaskFunction
}.

(** The answer without a task ([message] and [task: None]) is
    [Success None]. *)
Definition get_current_task (st : Store) (now : readings) : response (option TaskDetail) :=
  match read_progress st now with
  | Raise e => Failure e
  | Ok progress =>
      match read_functions st with
      | Raise e => Failure e
      | Ok functions =>
          let func_map := make_func_map functions in
          match select_current_task (p_tasks progress) with
          | None => Success None
          | Some (_, current_task) =>
              match func_map !! t_id current_task with
              | None => Failure ("找不到函数定义: " +:+ t_id current_task)
              | Some func_def =>
                  Success (Some (mkTaskDetail (t_id current_task)
                                   (status_value (t_status current_task))
                                   (t_notes current_task)
                                   (mkTaskFunction (f_name func_def) (f_file func_def)
                                      (f_signature func_def) (f_business_logic func_def)
                                      (f_code_logic func_def) (f_test_file func_def)
                                      (f_test_cases func_def) (f_dependencies func_def)
                                      (f_uses func_def))))
              end
          end
      end
  end.

(** ** tools.py: [get_function_def] *)

(** The answer carries every field of the definition, the status of its
    task and the notes. *)
Record FunctionInfo := mkFunctionInfo {
  fn_function : FunctionDef;
  fn_status : string;
  fn_notes : option string
}.

Definition get_function_def (st : Store) (function_id : string) (now : readings)
  : response FunctionInfo :=
  match get_function_by_id st function_id with
  | Raise e => Failure e
  | Ok None => Failure ("找不到函数: " +:+ function_id)
  | Ok (Some func) =>
      match read_progress st now with
      | Raise e => Failure e
      | Ok progress =>
          let task_status := dict_get function_id (p_tasks progress) in
          Success (mkFunctionInfo func
                     (match task_status with
                      | Some task => status_value (t_status task)
                      | None => "unknown"
                      end)
                     (match task_status with
                      | Some task => t_notes task
                      | None => None
                      end))
      end
  end.

(** ** Sample catalogs *)

Definition unit_of_work (id : string) (dependencies : list string) : FunctionDef :=
  mkFunctionDef id id "" None "" "" "" [] dependencies [] [].

(** A depends on B, B depends on C. *)
Definition chain_catalog : list FunctionDef :=
  [unit_of_work "A" ["B"]; unit_of_work "B" ["C"]; unit_of_work "C" []].

(** A depends on B, B depends on A. *)
Definition cyclic_catalog : list FunctionDef :=
  [unit_of_work "A" ["B"]; unit_of_work "B" ["A"]].

Definition store_of (functions : list FunctionDef) (progress : option ProgressData)
  : Store :=
  mkStore "demo" (Ok functions) (Ok <$> progress) true "" None.

Definition task (id : string) (status : TaskStatusEnum) : string * TaskStatus :=
  (id, mkTaskStatus id status (Some "") "t0").

Definition progress_of (tasks : odict TaskStatus) : ProgressData :=
  mkProgressData "" default_ProjectProgress tasks [].

(** A project whose progress file holds A pending (and current) and B
    completed, and the three clock readings of one transition. *)
Definition sample_progress : ProgressData :=
  mkProgressData "demo"
    (mkProjectProgress "demo" 7 7 7 7 7 (Some "A"))
    [task "A" PENDING; task "B" COMPLETED] [].

Definition sample_store : Store := store_of chain_catalog (Some sample_progress).

Definition sample_clock : Clock := mkClock "t1" "t2" "t3".

(** A clock that moves between the first calls. *)
Definition sample_readings : readings :=
  fun i => match i with O => "r0" | S O => "r1" | _ => "r2" end.

(** ** Notions used in the statements *)

(** Number of task states that hold [status]. *)
Definition count_status (status : TaskStatusEnum) (tasks : odict TaskStatus) : Z :=
  Z.of_nat (length (filter (fun task => t_status task = status) (dict_values tasks))).

Definition is_in_progress_item (item : string * TaskStatus) : bool :=
  bool_decide (t_status item.2 = IN_PROGRESS).

Definition is_ready_pending_item (func_map : gmap string FunctionDef)
    (tasks : odict TaskStatus) (item : string * TaskStatus) : bool :=
  bool_decide (t_status item.2 = PENDING) && is_task_ready func_map tasks item.1.

(** The items that the scan visits before it meets an in-progress task. *)
Fixpoint before_in_progress (items : odict TaskStatus) : odict TaskStatus :=
  match items with
  | [] => []
  | item :: rest =>
      if is_in_progress_item item then [] else item :: before_in_progress rest
  end.

(** The dependency ids that the catalog declares for a task id; an id
    without a catalog entry has none declared. *)
Definition declared_dependencies (func_map : gmap string FunctionDef)
    (func_id : string) : list string :=
  match func_map !! func_id with
  | Some func => f_dependencies func
  | None => []
  end.

Definition dep_completed (tasks : odict TaskStatus) (dep_id : string) : Prop :=
  ∃ dep_task, dict_get dep_id tasks = Some dep_task ∧ t_status dep_task = COMPLETED.

(** Readiness in the words of the specification: no declared dependencies,
    or every declared dependency id has a task state that is completed. *)
Definition ready_as_specified (func_map : gmap string FunctionDef)
    (tasks : odict TaskStatus) (func_id : string) : Prop :=
  declared_dependencies func_map func_id = [] ∨
  ∀ dep_id, dep_id ∈ declared_dependencies func_map func_id → dep_completed tasks dep_id.

(** An id is in the catalog when some entry carries it. *)
Definition in_catalog (functions : list FunctionDef) (func_id : string) : Prop :=
  ∃ func, func ∈ functions ∧ f_id func = func_id.

(** The ids reachable from the requested function: its own dependencies,
    and the dependencies of every reachable id that the catalog knows. *)
Inductive reachable (lookup : string → option FunctionDef) (roots : list string)
  : string → Prop :=
  | reach_root dep_id :
      dep_id ∈ roots → reachable lookup roots dep_id
  | reach_dep dep_id dep_func nested_dep :
      reachable lookup roots dep_id →
      lookup dep_id = Some dep_func →
      nested_dep ∈ f_dependencies dep_func →
      reachable lookup roots nested_dep.

(** What every iteration of the closure loop keeps: ids seen so far are
    reachable, and whatever a visited id or the request leads to is
    visited or waiting. *)
Definition closure_inv (lookup : string → option FunctionDef) (roots : list string)
    (s : closure_state) : Prop :=
  (∀ dep_id, dep_id ∈ all_dep_ids s ∨ dep_id ∈ to_process s →
             reachable lookup roots dep_id) ∧
  (∀ dep_id, dep_id ∈ roots → dep_id ∈ all_dep_ids s ∨ dep_id ∈ to_process s) ∧
  (∀ dep_id dep_func nested_dep,
     dep_id ∈ all_dep_ids s →
     lookup dep_id = Some dep_func →
     nested_dep ∈ f_dependencies dep_func →
     nested_dep ∈ all_dep_ids s ∨ nested_dep ∈ to_process s).

(** What a transition that reaches line 301 stores and answers. *)
Definition moved_pointer (function_id : string) (new_status : TaskStatusEnum)
    (current : option string) : option string :=
  if decide (new_status = IN_PROGRESS) then Some function_id
  else if decide (current = Some function_id) then None
  else current.

Definition stored_summary (progress : ProgressData) (function_id : string)
    (new_status : TaskStatusEnum) : ProjectProgress :=
  mkProjectProgress (s_project_name (p_summary progress))
    (Z.of_nat (length (p_tasks progress)))
    (count_status COMPLETED (p_tasks progress))
    (count_status IN_PROGRESS (p_tasks progress))
    (count_status PENDING (p_tasks progress))
    (count_status BLOCKED (p_tasks progress))
    (moved_pointer function_id new_status (s_current_task (p_summary progress))).

Definition is_pending_item (item : string * TaskStatus) : bool :=
  bool_decide (t_status item.2 = PENDING).

(** A stand-in for the rate formatting in the samples. *)
Definition sample_rate (completed total : Z) : string := "rate".

(** ** Dictionaries *)

Lemma dict_get_set_eq {V} (k : string) (v : V) (d : odict V) :
  dict_get k (dict_set k v d) = Some v.
Proof.
  induction d as [|[k' v'] d IH]; simpl.
  - by rewrite String.eqb_refl.
  - destruct (String.eqb k' k) eqn:E; simpl.
    + by rewrite String.eqb_refl.
    + by rewrite E.
Qed.

Lemma dict_get_set_ne {V} (k k2 : string) (v : V) (d : odict V) :
  k ≠ k2 → dict_get k2 (dict_set k v d) = dict_get k2 d.
Proof.
  intros Hne. induction d as [|[k' v'] d IH]; simpl.
  - destruct (String.eqb k k2) eqn:E; [|done].
    by apply String.eqb_eq in E.
  - destruct (String.eqb k' k) eqn:E; simpl.
    + apply String.eqb_eq in E; subst k'.
      destruct (String.eqb k k2) eqn:E2; [|done].
      by apply String.eqb_eq in E2.
    + by rewrite IH.
Qed.

Lemma dict_set_absent {V} (k : string) (v : V) (d : odict V) :
  dict_get k d = None → dict_set k v d = d ++ [(k, v)].
Proof.
  induction d as [|[k' v'] d IH]; simpl; [done|].
  destruct (String.eqb k' k); [done|].
  intros H. by rewrite IH.
Qed.

Lemma dict_set_set {V} (k : string) (v v' : V) (d : odict V) :
  dict_set k v' (dict_set k v d) = dict_set k v' d.
Proof.
  induction d as [|[k2 v2] d IH]; simpl.
  - by rewrite String.eqb_refl.
  - destruct (String.eqb k2 k) eqn:E; simpl.
    + by rewrite String.eqb_refl.
    + by rewrite E, IH.
Qed.

Lemma dict_set_keys_present {V} (k : string) (v v0 : V) (d : odict V) :
  dict_get k d = Some v0 → dict_keys (dict_set k v d) = dict_keys d.
Proof.
  induction d as [|[k2 v2] d IH]; simpl; [done|].
  destruct (String.eqb k2 k) eqn:E; simpl.
  - apply String.eqb_eq in E. by subst.
  - intros H. by rewrite IH.
Qed.

Lemma dict_get_None_keys {V} (k : string) (d : odict V) :
  dict_get k d = None ↔ k ∉ dict_keys d.
Proof.
  induction d as [|[k2 v2] d IH]; simpl.
  - split; [intros _; apply not_elem_of_nil | done].
  - rewrite not_elem_of_cons. destruct (String.eqb k2 k) eqn:E.
    + apply String.eqb_eq in E. subst. split; [done | intros [? _]; done].
    + apply String.eqb_neq in E. rewrite IH. split.
      * intros H. split; [congruence | done].
      * by intros [_ H].
Qed.

(** Assignment keeps the keys distinct. *)
Lemma dict_set_wf {V} (k : string) (v : V) (d : odict V) :
  dict_wf d → dict_wf (dict_set k v d).
Proof.
  unfold dict_wf. destruct (dict_get k d) as [v0|] eqn:E.
  - by rewrite (dict_set_keys_present k v v0 d E).
  - rewrite (dict_set_absent k v d E). unfold dict_keys. rewrite map_app. simpl.
    intros Hnd. apply NoDup_app. split; [done|]. split.
    + intros x Hx Hx'. apply list_elem_of_singleton in Hx'. subst.
      by apply dict_get_None_keys in E.
    + apply NoDup_singleton.
Qed.

(** ** The catalog lookups *)

Lemma find_function_Some functions func_id func :
  find_function functions func_id = Some func →
  func ∈ functions ∧ f_id func = func_id.
Proof.
  induction functions as [|g rest IH]; simpl; [done|].
  destruct (String.eqb (f_id g) func_id) eqn:E.
  - intros [= <-]. apply String.eqb_eq in E. split; [left | done].
  - intros H. destruct (IH H) as [? ?]. split; [by right | done].
Qed.

Lemma find_function_None functions func_id :
  find_function functions func_id = None ↔ ¬ in_catalog functions func_id.
Proof.
  unfold in_catalog. induction functions as [|g rest IH]; simpl.
  - split; [|done]. intros _ (f & Hf & _). by apply elem_of_nil in Hf.
  - destruct (String.eqb (f_id g) func_id) eqn:E.
    + apply String.eqb_eq in E. split; [done|]. intros H. exfalso. apply H.
      exists g. split; [left | done].
    + apply String.eqb_neq in E. rewrite IH. split.
      * intros H (f & Hf & Hid). apply elem_of_cons in Hf as [->|Hf]; [done|].
        apply H. eauto.
      * intros H (f & Hf & Hid). apply H. exists f. split; [by right | done].
Qed.

Lemma fold_insert_lookup functions (m : gmap string FunctionDef) func_id func :
  fold_left (fun m func => <[f_id func := func]> m) functions m !! func_id = Some func →
  (func ∈ functions ∧ f_id func = func_id) ∨ m !! func_id = Some func.
Proof.
  revert m. induction functions as [|g rest IH]; simpl; intros m H; [by right|].
  destruct (IH _ H) as [[? ?]|Hm].
  - left. split; [by right | done].
  - destruct (decide (f_id g = func_id)) as [Heq|Hne].
    + rewrite <- Heq, lookup_insert_eq in Hm. injection Hm as <-.
      left. split; [left | done].
    + rewrite lookup_insert_ne in Hm by done. by right.
Qed.

Lemma make_func_map_Some functions func_id func :
  make_func_map functions !! func_id = Some func →
  func ∈ functions ∧ f_id func = func_id.
Proof.
  intros H. destruct (fold_insert_lookup _ _ _ _ H) as [?|Hm]; [done|].
  by rewrite lookup_empty in Hm.
Qed.

Lemma make_func_map_None functions func_id :
  ¬ in_catalog functions func_id → make_func_map functions !! func_id = None.
Proof.
  intros H. destruct (make_func_map functions !! func_id) as [f|] eqn:E; [|done].
  exfalso. apply H. exists f. by apply make_func_map_Some.
Qed.

Lemma store_lookup_catalog st dep_id func :
  store_lookup st dep_id = Some func → func ∈ store_functions st.
Proof.
  unfold store_lookup, store_functions, get_function_by_id.
  destruct (read_functions st) as [e|functions]; simpl; [done|].
  intros H. by apply find_function_Some in H as [? _].
Qed.

Lemma store_lookup_Ok st functions dep_id :
  read_functions st = Ok functions →
  store_lookup st dep_id = find_function functions dep_id.
Proof. intros H. unfold store_lookup, get_function_by_id. by rewrite H. Qed.

(** ** The closure loop exits *)

Lemma deps_in_declared functions func :
  func ∈ functions → list_to_set (f_dependencies func) ⊆ declared_deps functions.
Proof.
  intros Hin x Hx. unfold declared_deps. apply elem_of_union_list.
  exists (list_to_set (f_dependencies func)). split; [|done].
  apply list_elem_of_In, in_map_iff. exists func. split; [done|].
  by apply list_elem_of_In.
Qed.

Lemma deps_le_max functions func :
  func ∈ functions → (length (f_dependencies func) ≤ max_deps functions)%nat.
Proof.
  induction functions as [|g rest IH]; simpl.
  - intros H. by apply elem_of_nil in H.
  - intros H. apply elem_of_cons in H as [->|H]; [lia|].
    specialize (IH H). lia.
Qed.

Section closure_exit.
Variable functions : list FunctionDef.
Variable lookup : string → option FunctionDef.
Hypothesis lookup_catalog :
  ∀ dep_id func, lookup dep_id = Some func → func ∈ functions.

(** Each iteration lowers [closure_fuel]. *)
Lemma closure_body_fuel visited dep_id rest :
  (closure_fuel functions (closure_body lookup visited dep_id rest)
   < closure_fuel functions (mkClosure visited (dep_id :: rest)))%nat.
Proof.
  unfold closure_body, closure_fuel.
  destruct (decide (dep_id ∈ visited)) as [Hin|Hnin]; simpl.
  - assert (size (pending_ids functions (mkClosure visited rest))
            ≤ size (pending_ids functions (mkClosure visited (dep_id :: rest))))%nat
      as Hle.
    { apply subseteq_size. unfold pending_ids; simpl. set_solver. }
    nia.
  - set (M := max_deps functions).
    assert (∀ queue,
      (list_to_set queue : gset string) ⊆ list_to_set rest ∪ declared_deps functions →
      (S (size (pending_ids functions (mkClosure (visited ∪ {[dep_id]}) queue)))
       ≤ size (pending_ids functions (mkClosure visited (dep_id :: rest))))%nat)
      as Hdrop.
    { intros queue Hq. apply (subset_size (C:=gset string)).
      unfold pending_ids; simpl. split.
      - set_solver.
      - intros Hback. specialize (Hback dep_id). set_solver. }
    destruct (lookup dep_id) as [dep_func|] eqn:Hlook; simpl.
    + pose proof (lookup_catalog _ _ Hlook) as Hcat.
      pose proof (deps_le_max _ _ Hcat) as Hmax.
      pose proof (deps_in_declared _ _ Hcat) as Hdecl.
      rewrite length_app.
      pose proof (length_filter (fun nested_dep => nested_dep ∉ visited ∪ {[dep_id]})
                    (f_dependencies dep_func)) as Hfil.
      match goal with |- context [pending_ids functions (mkClosure _ ?q)] =>
        specialize (Hdrop q) end.
      fold M in Hmax.
      assert (list_to_set
                (rest ++ filter (fun nested_dep => nested_dep ∉ visited ∪ {[dep_id]})
                                (f_dependencies dep_func))
              ⊆ (list_to_set rest ∪ declared_deps functions : gset string)) as Hsub.
      { intros x Hx. apply elem_of_list_to_set, elem_of_app in Hx as [Hx|Hx].
        - apply elem_of_union_l. by apply elem_of_list_to_set.
        - apply elem_of_union_r, Hdecl, elem_of_list_to_set.
          by apply list_elem_of_filter in Hx as [_ Hx]. }
      specialize (Hdrop Hsub). nia.
    + specialize (Hdrop rest ltac:(set_solver)). nia.
Qed.

(** With [closure_fuel] iterations or more the worklist ends empty. *)
Lemma closure_loop_exits fuel s :
  (closure_fuel functions s ≤ fuel)%nat →
  to_process (closure_loop lookup fuel s) = [].
Proof.
  revert s. induction fuel as [|fuel IH]; intros [visited queue] Hfuel; simpl.
  - unfold closure_fuel in Hfuel; simpl in Hfuel.
    destruct queue; [done | simpl in Hfuel; lia].
  - destruct queue as [|dep_id rest]; [done|].
    apply IH. pose proof (closure_body_fuel visited dep_id rest). lia.
Qed.
End closure_exit.

(** Once the worklist is empty, further iterations change nothing. *)
Lemma closure_loop_stable lookup fuel s more :
  to_process (closure_loop lookup fuel s) = [] →
  closure_loop lookup (fuel + more) s = closure_loop lookup fuel s.
Proof.
  revert s. induction fuel as [|fuel IH]; intros s Hend; simpl in *.
  - destruct more; simpl; [done|]. by rewrite Hend.
  - destruct (to_process s); [done|]. by apply IH.
Qed.

(** ** The recomputed summary *)

(** Equality of counter tuples, component by component. *)
Ltac tuple_lia :=
  repeat match goal with |- (_, _) = (_, _) => f_equal end; try done; lia.

Lemma count_status_cons status k task tasks :
  count_status status ((k, task) :: tasks)
  = (if decide (t_status task = status) then 1 else 0) + count_status status tasks.
Proof.
  unfold count_status, dict_values. simpl. rewrite filter_cons.
  destruct (decide (t_status task = status)); simpl; lia.
Qed.

Lemma fold_count_task tasks completed in_progress pending blocked :
  fold_left count_task (dict_values tasks) (completed, in_progress, pending, blocked)
  = (completed + count_status COMPLETED tasks,
     in_progress + count_status IN_PROGRESS tasks,
     pending + count_status PENDING tasks,
     blocked + count_status BLOCKED tasks).
Proof.
  revert completed in_progress pending blocked.
  induction tasks as [|[k task] tasks IH]; intros c i p b.
  - unfold count_status; simpl. tuple_lia.
  - change (fold_left count_task (dict_values ((k, task) :: tasks)) (c, i, p, b))
      with (fold_left count_task (dict_values tasks) (count_task (c, i, p, b) task)).
    rewrite !count_status_cons.
    assert (count_task (c, i, p, b) task
            = (c + (if decide (t_status task = COMPLETED) then 1 else 0),
               i + (if decide (t_status task = IN_PROGRESS) then 1 else 0),
               p + (if decide (t_status task = PENDING) then 1 else 0),
               b + (if decide (t_status task = BLOCKED) then 1 else 0))) as ->.
    { unfold count_task. destruct (t_status task); repeat case_decide;
        try congruence; tuple_lia. }
    rewrite IH. tuple_lia.
Qed.

Lemma count_status_total tasks :
  count_status COMPLETED tasks + count_status IN_PROGRESS tasks
  + count_status PENDING tasks + count_status BLOCKED tasks
  = Z.of_nat (length tasks).
Proof.
  induction tasks as [|[k task] tasks IH].
  - done.
  - rewrite !count_status_cons. simpl length.
    destruct (t_status task); repeat case_decide; try congruence; lia.
Qed.

Lemma recalculate_summary_spec progress :
  let progress' := _recalculate_summary progress in
  p_tasks progress' = p_tasks progress ∧
  p_changelog progress' = p_changelog progress ∧
  p_project_name progress' = p_project_name progress ∧
  p_summary progress' =
    mkProjectProgress (s_project_name (p_summary progress))
      (Z.of_nat (length (p_tasks progress)))
      (count_status COMPLETED (p_tasks progress))
      (count_status IN_PROGRESS (p_tasks progress))
      (count_status PENDING (p_tasks progress))
      (count_status BLOCKED (p_tasks progress))
      (s_current_task (p_summary progress)).
Proof.
  unfold _recalculate_summary. rewrite fold_count_task. simpl.
  repeat split; done.
Qed.

Lemma finish_update_spec st progress function_id new_status notes :
  finish_update st progress function_id new_status notes =
  if writable st then
    (with_progress st
       (Some (Ok (mkProgressData "" (stored_summary progress function_id new_status)
                    (p_tasks progress) (p_changelog progress)))),
     Success (mkUpdateResult function_id (status_value new_status) notes
                (t_updated_at <$> dict_get function_id (p_tasks progress))
                (mkSummaryCounts (Z.of_nat (length (p_tasks progress)))
                   (count_status COMPLETED (p_tasks progress))
                   (count_status IN_PROGRESS (p_tasks progress))
                   (count_status PENDING (p_tasks progress))
                   (count_status BLOCKED (p_tasks progress)))))
  else (match after_failed_write st with
        | None => st
        | Some leftover => with_progress st (Some leftover)
        end,
        Failure (write_error st)).
Proof.
  unfold finish_update, write_progress.
  destruct (recalculate_summary_spec progress) as (Ht & Hc & Hn & Hs).
  destruct (_recalculate_summary progress) as [name summary tasks changelog].
  simpl in *. subst. unfold stored_summary, moved_pointer.
  destruct (writable st); repeat case_decide; simpl in *; try done.
Qed.

(** ** Readiness and the scan for the current task *)

Lemma deps_completed_spec tasks dependencies :
  deps_completed tasks dependencies = true ↔
  ∀ dep_id, dep_id ∈ dependencies → dep_completed tasks dep_id.
Proof.
  unfold dep_completed. induction dependencies as [|d rest IH]; simpl.
  - split; [|done]. intros _ x Hx. by apply elem_of_nil in Hx.
  - destruct (dict_get d tasks) as [dep_task|] eqn:E.
    + destruct (decide (t_status dep_task ≠ COMPLETED)) as [Hne|Heq].
      * split; [done|]. intros H. destruct (H d ltac:(left)) as (t & Ht & Hs).
        congruence.
      * apply dec_stable in Heq. rewrite IH. split.
        -- intros H x Hx. apply elem_of_cons in Hx as [->|Hx]; eauto.
        -- intros H x Hx. apply H. by right.
    + split; [done|]. intros H. destruct (H d ltac:(left)) as (t & Ht & Hs).
      congruence.
Qed.

Lemma is_task_ready_spec func_map tasks func_id :
  is_task_ready func_map tasks func_id = true ↔
  is_Some (func_map !! func_id) ∧ ready_as_specified func_map tasks func_id.
Proof.
  unfold is_task_ready, ready_as_specified, declared_dependencies.
  destruct (func_map !! func_id) as [func|].
  - destruct (f_dependencies func) as [|d rest] eqn:E.
    + split; [|done]. intros _. split; [by eexists | by left].
    + rewrite deps_completed_spec. split.
      * intros H. split; [by eexists | by right].
      * by intros [_ [H|H]].
  - split; [done|]. intros [[? H] _]. done.
Qed.

Lemma scan_tasks_spec func_map tasks items ready_pending_task :
  scan_tasks func_map tasks items None ready_pending_task =
  (find is_in_progress_item items,
   match ready_pending_task with
   | Some entry => Some entry
   | None => find (is_ready_pending_item func_map tasks) (before_in_progress items)
   end).
Proof.
  revert ready_pending_task.
  induction items as [|[func_id task] rest IH]; intros rp.
  - simpl. by destruct rp.
  - simpl. unfold is_in_progress_item, is_ready_pending_item. simpl.
    destruct (bool_decide (t_status task = IN_PROGRESS)) eqn:Hip; simpl.
    + by destruct rp.
    + destruct (bool_decide (t_status task = PENDING)) eqn:Hpe; simpl.
      * destruct rp as [entry|]; simpl.
        -- by rewrite IH.
        -- destruct (is_task_ready func_map tasks func_id); by rewrite IH.
      * rewrite IH. by destruct rp.
Qed.

Lemma resolve_current_task_spec func_map tasks :
  resolve_current_task func_map tasks =
  match find is_in_progress_item tasks with
  | Some entry => Some entry
  | None => find (is_ready_pending_item func_map tasks) (before_in_progress tasks)
  end.
Proof. unfold resolve_current_task. by rewrite scan_tasks_spec. Qed.

Lemma no_in_progress_scan (items : odict TaskStatus) :
  (∀ item, item ∈ items → t_status item.2 ≠ IN_PROGRESS) →
  find is_in_progress_item items = None ∧ before_in_progress items = items.
Proof.
  induction items as [|item rest IH]; intros H; [done|].
  simpl. unfold is_in_progress_item at 1 3.
  rewrite bool_decide_eq_false_2 by (apply H; left).
  destruct IH as [-> ->]; [|done]. intros x Hx. apply H. by right.
Qed.

(** The first in-progress item splits the dict. *)
Lemma first_in_progress_split (items : odict TaskStatus) :
  (∃ item, item ∈ items ∧ t_status item.2 = IN_PROGRESS) →
  ∃ pre item post,
    items = pre ++ item :: post ∧ t_status item.2 = IN_PROGRESS ∧
    ∀ e, e ∈ pre → t_status e.2 ≠ IN_PROGRESS.
Proof.
  induction items as [|x rest IH]; intros (item & Hin & Hst).
  - by apply elem_of_nil in Hin.
  - destruct (decide (t_status x.2 = IN_PROGRESS)) as [Hx|Hx].
    + exists [], x, rest. split; [done|]. split; [done|].
      intros e He. by apply elem_of_nil in He.
    + apply elem_of_cons in Hin as [->|Hin]; [done|].
      destruct IH as (pre & y & post & -> & Hy & Hpre); [eauto|].
      exists (x :: pre), y, post. split; [done|]. split; [done|].
      intros e He. apply elem_of_cons in He as [->|He]; auto.
Qed.

Lemma scan_tasks_in_progress func_map tasks pre item rest :
  t_status item.2 = IN_PROGRESS →
  (∀ e, e ∈ pre → t_status e.2 ≠ IN_PROGRESS) →
  scan_tasks func_map tasks (pre ++ item :: rest) None None =
  (Some item, find (is_ready_pending_item func_map tasks) pre).
Proof.
  intros Hitem Hpre. rewrite scan_tasks_spec. f_equal.
  - induction pre as [|x pre IH]; simpl.
    + unfold is_in_progress_item. by rewrite bool_decide_eq_true_2.
    + unfold is_in_progress_item at 1.
      rewrite bool_decide_eq_false_2 by (apply Hpre; left).
      apply IH. intros e He. apply Hpre. by right.
  - f_equal. induction pre as [|x pre IH]; simpl.
    + unfold is_in_progress_item. by rewrite bool_decide_eq_true_2.
    + unfold is_in_progress_item at 1.
      rewrite bool_decide_eq_false_2 by (apply Hpre; left).
      f_equal. apply IH. intros e He. apply Hpre. by right.
Qed.

(** What a successful answer of [get_current_task_context] says about the
    current task. *)
Lemma get_current_task_context_current st now progress functions r :
  read_progress st now = Ok progress →
  read_functions st = Ok functions →
  get_current_task_context st now = Success r →
  match resolve_current_task (make_func_map functions) (p_tasks progress) with
  | None => tc_current_task r = None
  | Some (_, current_task) =>
      ∃ func_def,
        make_func_map functions !! t_id current_task = Some func_def ∧
        tc_current_task r =
          Some (mkCurrentTask (t_id current_task)
                  (status_value (t_status current_task)) (t_notes current_task)
                  (func_full progress func_def))
  end.
Proof.
  intros Hp Hf. unfold get_current_task_context. rewrite Hp, Hf.
  destruct (rate_raises (p_summary progress)); [done|].
  destruct (resolve_current_task _ _) as [[k t]|].
  - destruct (make_func_map functions !! t_id t) as [func_def|]; [|done].
    intros [= <-]. by exists func_def.
  - by intros [= <-].
Qed.

(** ** Transitions *)

(** The progress data that a transition hands to line 301: a first
    observation adds a task state, a later one rewrites it and logs. *)
Lemma update_task_status_Success st function_id status notes clock st' r :
  update_task_status st function_id status notes clock = (st', Success r) →
  ∃ new_status progress q,
    parse_status status = Some new_status ∧
    read_progress st (now_init clock) = Ok progress ∧
    writable st = true ∧
    ((dict_get function_id (p_tasks progress) = None ∧
      (∃ func, get_function_by_id st function_id = Ok (Some func)) ∧
      q = mkProgressData (p_project_name progress) (p_summary progress)
            (dict_set function_id
               (mkTaskStatus function_id new_status notes (now_task clock))
               (p_tasks progress))
            (p_changelog progress))
     ∨
     (∃ old, dict_get function_id (p_tasks progress) = Some old ∧
      q = mkProgressData (p_project_name progress) (p_summary progress)
            (dict_set function_id
               (mkTaskStatus (t_id old) new_status notes (now_task clock))
               (p_tasks progress))
            (p_changelog progress ++
             [status_change_entry function_id (t_status old) new_status
                (now_log clock)]))) ∧
    progress_json st' =
      Some (Ok (mkProgressData "" (stored_summary q function_id new_status)
                  (p_tasks q) (p_changelog q))) ∧
    ur_summary r =
      mkSummaryCounts (Z.of_nat (length (p_tasks q)))
        (count_status COMPLETED (p_tasks q)) (count_status IN_PROGRESS (p_tasks q))
        (count_status PENDING (p_tasks q)) (count_status BLOCKED (p_tasks q)).
Proof.
  unfold update_task_status.
  destruct (parse_status status) as [new_status|]; [|done].
  destruct (read_progress st (now_init clock)) as [e|progress]; [done|].
  destruct (dict_get function_id (p_tasks progress)) as [old|] eqn:Hget.
  - rewrite finish_update_spec. destruct (writable st) eqn:Hw; [|done].
    intros [= <- <-]. eexists new_status, progress, _.
    split; [done|]. split; [done|]. split; [done|].
    split; [right; exists old; split; done|]. simpl. done.
  - destruct (get_function_by_id st function_id) as [e|[func|]] eqn:Hf; [done| |done].
    rewrite finish_update_spec. destruct (writable st) eqn:Hw; [|done].
    intros [= <- <-]. eexists new_status, progress, _.
    split; [done|]. split; [done|]. split; [done|].
    split; [left; split; [done|]; split; [by exists func | done]|]. simpl. done.
Qed.

Lemma update_task_status_existing st function_id status notes clock
    new_status progress old :
  parse_status status = Some new_status →
  read_progress st (now_init clock) = Ok progress →
  dict_get function_id (p_tasks progress) = Some old →
  update_task_status st function_id status notes clock =
  finish_update st
    (mkProgressData (p_project_name progress) (p_summary progress)
       (dict_set function_id
          (mkTaskStatus (t_id old) new_status notes (now_task clock))
          (p_tasks progress))
       (p_changelog progress ++
        [status_change_entry function_id (t_status old) new_status (now_log clock)]))
    function_id new_status notes.
Proof. intros Hs Hp Hg. unfold update_task_status. by rewrite Hs, Hp, Hg. Qed.

Lemma update_task_status_new st function_id status notes clock
    new_status progress func :
  parse_status status = Some new_status →
  read_progress st (now_init clock) = Ok progress →
  dict_get function_id (p_tasks progress) = None →
  get_function_by_id st function_id = Ok (Some func) →
  update_task_status st function_id status notes clock =
  finish_update st
    (mkProgressData (p_project_name progress) (p_summary progress)
       (dict_set function_id
          (mkTaskStatus function_id new_status notes (now_task clock))
          (p_tasks progress))
       (p_changelog progress))
    function_id new_status notes.
Proof. intros Hs Hp Hg Hf. unfold update_task_status. by rewrite Hs, Hp, Hg, Hf. Qed.

(** ** The closure is the reachable set *)

Section closure_correct.
Variable lookup : string → option FunctionDef.
Variable roots : list string.

Lemma closure_inv_init : closure_inv lookup roots (mkClosure ∅ roots).
Proof.
  split; [|split]; simpl.
  - intros d [Hd|Hd]; [by apply not_elem_of_empty in Hd | by apply reach_root].
  - intros d Hd. by right.
  - intros d f d' Hd. by apply not_elem_of_empty in Hd.
Qed.

Lemma closure_body_inv visited dep_id rest :
  closure_inv lookup roots (mkClosure visited (dep_id :: rest)) →
  closure_inv lookup roots (closure_body lookup visited dep_id rest).
Proof.
  intros (Hsound & Hroots & Hclosed). simpl in *. unfold closure_body.
  destruct (decide (dep_id ∈ visited)) as [Hin|Hnin].
  - split; [|split]; simpl.
    + intros d [Hd|Hd]; apply Hsound; [by left | right; by right].
    + intros d Hd. destruct (Hroots d Hd) as [?|Hq]; [by left|].
      apply elem_of_cons in Hq as [->|?]; [by left | by right].
    + intros d f d' Hd Hf Hd'. destruct (Hclosed d f d' Hd Hf Hd') as [?|Hq]; [by left|].
      apply elem_of_cons in Hq as [->|?]; [by left | by right].
  - assert (reachable lookup roots dep_id) as Hreach by (apply Hsound; right; left).
    destruct (lookup dep_id) as [dep_func|] eqn:Hlook.
    + split; [|split]; simpl.
      * intros d [Hd|Hd].
        -- apply elem_of_union in Hd as [Hd|Hd]; [apply Hsound; by left|].
           apply elem_of_singleton in Hd. by subst.
        -- apply elem_of_app in Hd as [Hd|Hd]; [apply Hsound; right; by right|].
           apply list_elem_of_filter in Hd as [_ Hd]. by eapply reach_dep.
      * intros d Hd. destruct (Hroots d Hd) as [?|Hq]; [left; set_solver|].
        apply elem_of_cons in Hq as [->|?]; [left; set_solver|].
        right. apply elem_of_app. by left.
      * intros d f d' Hd Hf Hd'.
        destruct (decide (d' ∈ visited ∪ {[dep_id]})) as [?|Hfresh]; [by left|].
        right. apply elem_of_app. apply elem_of_union in Hd as [Hd|Hd].
        -- destruct (Hclosed d f d' Hd Hf Hd') as [?|Hq]; [set_solver|].
           apply elem_of_cons in Hq as [->|?]; [set_solver | by left].
        -- apply elem_of_singleton in Hd. subst d.
           assert (f = dep_func) as -> by congruence.
           right. by apply list_elem_of_filter.
    + split; [|split]; simpl.
      * intros d [Hd|Hd].
        -- apply elem_of_union in Hd as [Hd|Hd]; [apply Hsound; by left|].
           apply elem_of_singleton in Hd. by subst.
        -- apply Hsound. right. by right.
      * intros d Hd. destruct (Hroots d Hd) as [?|Hq]; [left; set_solver|].
        apply elem_of_cons in Hq as [->|?]; [left; set_solver | by right].
      * intros d f d' Hd Hf Hd'. apply elem_of_union in Hd as [Hd|Hd].
        -- destruct (Hclosed d f d' Hd Hf Hd') as [?|Hq]; [left; set_solver|].
           apply elem_of_cons in Hq as [->|?]; [left; set_solver | by right].
        -- apply elem_of_singleton in Hd. subst d. congruence.
Qed.

Lemma closure_loop_inv fuel s :
  closure_inv lookup roots s → closure_inv lookup roots (closure_loop lookup fuel s).
Proof.
  revert s. induction fuel as [|fuel IH]; intros [visited queue] Hinv; simpl; [done|].
  destruct queue as [|dep_id rest]; [done|].
  by apply IH, closure_body_inv.
Qed.

(** When the loop has exited, the visited set is the reachable set. *)
Lemma closure_inv_exit s :
  closure_inv lookup roots s → to_process s = [] →
  ∀ dep_id, dep_id ∈ all_dep_ids s ↔ reachable lookup roots dep_id.
Proof.
  intros (Hsound & Hroots & Hclosed) Hend dep_id. rewrite Hend in *. split.
  - intros Hd. apply Hsound. by left.
  - induction 1 as [d Hd|d f d' _ IH Hf Hd'].
    + destruct (Hroots d Hd) as [?|Hq]; [done | by apply elem_of_nil in Hq].
    + destruct (Hclosed d f d' IH Hf Hd') as [?|Hq]; [done | by apply elem_of_nil in Hq].
Qed.
End closure_correct.

(** The ids that either operation collects are the ids reachable from the
    dependencies of the function it was asked about. *)
Lemma collect_deps_reachable functions lookup dependencies :
  (∀ dep_id func, lookup dep_id = Some func → func ∈ functions) →
  ∀ dep_id,
    dep_id ∈ all_dep_ids (collect_deps functions lookup dependencies) ↔
    reachable lookup dependencies dep_id.
Proof.
  intros Hcat. unfold collect_deps. apply closure_inv_exit.
  - apply closure_loop_inv, closure_inv_init.
  - by apply (closure_loop_exits functions).
Qed.

(** ** Closure of the sample catalogs *)

(** C1, as amended: for the chain A→B→C the closure requested for A is
    exactly {B, C}; for the cycle A→B→A the loop exits and the closure is
    exactly {A, B}: B's dependency on A puts the starting id on the
    worklist, and nothing removes it.  Both hold for the loop of
    [get_function_with_deps] and for the loop of
    [get_current_task_context], and the answers of the two operations list
    exactly these ids. *)
Theorem closure_chain_and_cycle :
  let by_id functions := find_function functions in
  let by_map functions := fun dep_id => make_func_map functions !! dep_id in
  let in_progress_A :=
    Some (progress_of [task "A" IN_PROGRESS; task "B" PENDING; task "C" PENDING]) in
  (collect_deps chain_catalog (by_id chain_catalog) ["B"] = mkClosure {[ "B"; "C" ]} [] ∧
   collect_deps chain_catalog (by_map chain_catalog) ["B"] = mkClosure {[ "B"; "C" ]} [] ∧
   collect_deps cyclic_catalog (by_id cyclic_catalog) ["B"] = mkClosure {[ "A"; "B" ]} [] ∧
   collect_deps cyclic_catalog (by_map cyclic_catalog) ["B"] = mkClosure {[ "A"; "B" ]} []) ∧
  (∀ now, ∃ r,
     get_function_with_deps (store_of chain_catalog None) "A" now = Success r ∧
     list_to_set (map fd_id (wd_dependencies r)) = ({[ "B"; "C" ]} : gset string) ∧
     wd_total_dependencies r = 2) ∧
  (∀ now, ∃ r,
     get_function_with_deps (store_of cyclic_catalog None) "A" now = Success r ∧
     list_to_set (map fd_id (wd_dependencies r)) = ({[ "A"; "B" ]} : gset string) ∧
     wd_total_dependencies r = 2) ∧
  (∀ now, ∃ r,
     get_current_task_context (store_of chain_catalog in_progress_A) now = Success r ∧
     list_to_set (map fb_id (tc_dependencies r)) = ({[ "B"; "C" ]} : gset string) ∧
     tc_total_dependencies r = 2) ∧
  (∀ now, ∃ r,
     get_current_task_context (store_of cyclic_catalog in_progress_A) now = Success r ∧
     list_to_set (map fb_id (tc_dependencies r)) = ({[ "A"; "B" ]} : gset string) ∧
     tc_total_dependencies r = 2).
Proof.
  cbv zeta. split; [repeat split; vm_compute; reflexivity|].
  repeat split; intros now; eexists; (split; [vm_compute; reflexivity|]);
    split; vm_compute; reflexivity.
Qed.

(** C1 as stated fails on the cycle A→B→A: the closure requested for A
    holds the starting id A, so it is not {B}. *)
Lemma closure_cycle_holds_start :
  let closure :=
    all_dep_ids (collect_deps cyclic_catalog (find_function cyclic_catalog)
                   (f_dependencies (unit_of_work "A" ["B"]))) in
  let context_closure :=
    all_dep_ids (collect_deps cyclic_catalog
                   (fun dep_id => make_func_map cyclic_catalog !! dep_id)
                   (f_dependencies (unit_of_work "A" ["B"]))) in
  "A" ∈ closure ∧ closure ≠ {[ "B" ]} ∧
  "A" ∈ context_closure ∧ context_closure ≠ {[ "B" ]}.
Proof.
  cbv zeta.
  assert (all_dep_ids (collect_deps cyclic_catalog (find_function cyclic_catalog)
                         (f_dependencies (unit_of_work "A" ["B"]))) = {[ "A"; "B" ]})
    as -> by (vm_compute; reflexivity).
  assert (all_dep_ids (collect_deps cyclic_catalog
                         (fun dep_id => make_func_map cyclic_catalog !! dep_id)
                         (f_dependencies (unit_of_work "A" ["B"]))) = {[ "A"; "B" ]})
    as -> by (vm_compute; reflexivity).
  repeat split; try set_solver.
  - intros H. assert ("A" ∈ ({[ "B" ]} : gset string)) as HA by (rewrite <- H; set_solver).
    apply elem_of_singleton in HA. discriminate.
  - intros H. assert ("A" ∈ ({[ "B" ]} : gset string)) as HA by (rewrite <- H; set_solver).
    apply elem_of_singleton in HA. discriminate.
Qed.

(** C9: for every catalog, with or without cycles and self-references, and
    from every state of the loop, the traversal reaches an empty worklist
    after finitely many iterations and then stays as it is, whichever of
    the two lookups it uses; the number of iterations that the two
    operations allow is enough, so the loop they run has exited. *)
Theorem closure_loop_terminates (functions : list FunctionDef) (s : closure_state) :
  (∃ n, to_process (closure_loop (find_function functions) n s) = [] ∧
        ∀ m, (n ≤ m)%nat →
          closure_loop (find_function functions) m s
          = closure_loop (find_function functions) n s) ∧
  (∃ n, to_process (closure_loop (fun dep_id => make_func_map functions !! dep_id) n s) = [] ∧
        ∀ m, (n ≤ m)%nat →
          closure_loop (fun dep_id => make_func_map functions !! dep_id) m s
          = closure_loop (fun dep_id => make_func_map functions !! dep_id) n s) ∧
  (∀ st dependencies,
     to_process (collect_deps (store_functions st) (store_lookup st) dependencies) = []) ∧
  (∀ dependencies,
     to_process (collect_deps functions (fun dep_id => make_func_map functions !! dep_id)
                   dependencies) = []).
Proof.
  assert (∀ dep_id func, find_function functions dep_id = Some func → func ∈ functions)
    as Hid by (intros d f H; by apply find_function_Some in H as [? _]).
  assert (∀ dep_id func, make_func_map functions !! dep_id = Some func → func ∈ functions)
    as Hmap by (intros d f H; by apply make_func_map_Some in H as [? _]).
  split; [|split; [|split]].
  - exists (closure_fuel functions s). split.
    + by apply (closure_loop_exits functions).
    + intros m Hm. replace m with (closure_fuel functions s + (m - closure_fuel functions s))%nat
        by lia.
      apply closure_loop_stable. by apply (closure_loop_exits functions).
  - exists (closure_fuel functions s). split.
    + by apply (closure_loop_exits functions).
    + intros m Hm. replace m with (closure_fuel functions s + (m - closure_fuel functions s))%nat
        by lia.
      apply closure_loop_stable. by apply (closure_loop_exits functions).
  - intros st dependencies. unfold collect_deps.
    apply (closure_loop_exits (store_functions st)); [|done].
    apply store_lookup_catalog.
  - intros dependencies. unfold collect_deps. by apply (closure_loop_exits functions).
Qed.

(** ** Properties of [update_task_status] *)

(** The value of a parsed status is the string that was parsed. *)
Lemma parse_status_description status new_status :
  parse_status status = Some new_status → status_value new_status = status.
Proof.
  unfold parse_status.
  destruct (String.eqb status "pending") eqn:E1;
    [apply String.eqb_eq in E1; by intros [= <-]|].
  destruct (String.eqb status "in_progress") eqn:E2;
    [apply String.eqb_eq in E2; by intros [= <-]|].
  destruct (String.eqb status "completed") eqn:E3;
    [apply String.eqb_eq in E3; by intros [= <-]|].
  destruct (String.eqb status "blocked") eqn:E4;
    [apply String.eqb_eq in E4; by intros [= <-]|].
  done.
Qed.

Lemma moved_pointer_idem function_id new_status current :
  moved_pointer function_id new_status (moved_pointer function_id new_status current)
  = moved_pointer function_id new_status current.
Proof. unfold moved_pointer. repeat case_decide; congruence. Qed.

Lemma in_catalog_find functions func_id :
  in_catalog functions func_id → ∃ func, find_function functions func_id = Some func.
Proof.
  intros H. destruct (find_function functions func_id) as [func|] eqn:E; [eauto|].
  by apply find_function_None in E.
Qed.

(** C2: after every successful [update_task_status] the stored summary has
    [total] equal to the number of task states, every per-status counter
    equal to the number of task states holding that status, and the four
    counters add up to [total], whatever the summary held before. *)
Theorem summary_recomputed st function_id status notes clock st' r :
  update_task_status st function_id status notes clock = (st', Success r) →
  ∃ progress',
    progress_json st' = Some (Ok progress') ∧
    let summary := p_summary progress' in
    let tasks := p_tasks progress' in
    s_total summary = Z.of_nat (length tasks) ∧
    s_completed summary = count_status COMPLETED tasks ∧
    s_in_progress summary = count_status IN_PROGRESS tasks ∧
    s_pending summary = count_status PENDING tasks ∧
    s_blocked summary = count_status BLOCKED tasks ∧
    s_completed summary + s_in_progress summary + s_pending summary
    + s_blocked summary = s_total summary.
Proof.
  intros H.
  apply update_task_status_Success in H
    as (new_status & progress & q & _ & _ & _ & _ & Hst & _).
  eexists. split; [exact Hst|]. simpl.
  repeat split; try done. apply count_status_total.
Qed.

Lemma summary_recomputed_witness :
  ∃ progress',
    progress_json (update_task_status sample_store "A" "completed" None sample_clock).1
    = Some (Ok progress') ∧
    let summary := p_summary progress' in
    let tasks := p_tasks progress' in
    s_total summary = Z.of_nat (length tasks) ∧
    s_completed summary = count_status COMPLETED tasks ∧
    s_in_progress summary = count_status IN_PROGRESS tasks ∧
    s_pending summary = count_status PENDING tasks ∧
    s_blocked summary = count_status BLOCKED tasks ∧
    s_completed summary + s_in_progress summary + s_pending summary
    + s_blocked summary = s_total summary.
Proof.
  eapply (summary_recomputed sample_store "A" "completed" None sample_clock).
  reflexivity.
Defined.

(** C5: after every successful [update_task_status] the stored current-task
    pointer is the transitioned id when the new status is in_progress;
    otherwise it is cleared when it held that id and is left as it was when
    it held another id or none.  Nothing is assumed about a task state for
    the id existing before the call. *)
Theorem current_task_pointer st function_id status notes clock st' r :
  update_task_status st function_id status notes clock = (st', Success r) →
  ∃ new_status progress progress',
    parse_status status = Some new_status ∧
    read_progress st (now_init clock) = Ok progress ∧
    progress_json st' = Some (Ok progress') ∧
    s_current_task (p_summary progress') =
      if decide (new_status = IN_PROGRESS) then Some function_id
      else if decide (s_current_task (p_summary progress) = Some function_id) then None
      else s_current_task (p_summary progress).
Proof.
  intros H.
  apply update_task_status_Success in H
    as (new_status & progress & q & Hs & Hp & _ & Hq & Hst & _).
  exists new_status, progress. eexists.
  split; [done|]. split; [done|]. split; [exact Hst|]. simpl.
  unfold moved_pointer.
  by destruct Hq as [(_ & _ & ->)|(old & _ & ->)].
Qed.

Lemma current_task_pointer_witness :
  ∃ new_status progress progress',
    parse_status "completed" = Some new_status ∧
    read_progress sample_store (now_init sample_clock) = Ok progress ∧
    progress_json (update_task_status sample_store "A" "completed" None sample_clock).1
    = Some (Ok progress') ∧
    s_current_task (p_summary progress') =
      if decide (new_status = IN_PROGRESS) then Some "A"
      else if decide (s_current_task (p_summary progress) = Some "A") then None
      else s_current_task (p_summary progress).
Proof.
  eapply (current_task_pointer sample_store "A" "completed" None sample_clock).
  reflexivity.
Defined.

(** C6: with a valid status and a working store, an id that has no task
    state but is in the catalog gets a new task state (requested status,
    given note, timestamp now) at the end of the mapping, the call
    succeeds, and the change log is the one from before the call; an id
    that has a task state gets its status, note and timestamp rewritten and
    exactly one entry appended, a [status_change] of that id whose
    description reads "from <old status> to <new status>" with the two
    status names, also when the two statuses are equal. *)
Theorem first_observation_not_logged st function_id status notes clock
    new_status progress :
  parse_status status = Some new_status →
  read_progress st (now_init clock) = Ok progress →
  writable st = true →
  (∀ functions,
     read_functions st = Ok functions →
     in_catalog functions function_id →
     dict_get function_id (p_tasks progress) = None →
     ∃ st' r progress',
       update_task_status st function_id status notes clock = (st', Success r) ∧
       progress_json st' = Some (Ok progress') ∧
       p_tasks progress' =
         p_tasks progress ++
         [(function_id, mkTaskStatus function_id new_status notes (now_task clock))] ∧
       p_changelog progress' = p_changelog progress) ∧
  (∀ old,
     dict_get function_id (p_tasks progress) = Some old →
     ∃ st' r progress' entry,
       update_task_status st function_id status notes clock = (st', Success r) ∧
       progress_json st' = Some (Ok progress') ∧
       dict_get function_id (p_tasks progress') =
         Some (mkTaskStatus (t_id old) new_status notes (now_task clock)) ∧
       p_changelog progress' = p_changelog progress ++ [entry] ∧
       length (p_changelog progress') = S (length (p_changelog progress)) ∧
       c_description entry =
         "状态从 " +:+
         match t_status old with
         | PENDING => "pending"
         | IN_PROGRESS => "in_progress"
         | COMPLETED => "completed"
         | BLOCKED => "blocked"
         end +:+ " 变更为 " +:+ status ∧
       c_function_id entry = Some function_id ∧
       c_action entry = Some "status_change" ∧
       c_timestamp entry = Some (now_log clock) ∧
       c_date entry = None ∧
       c_author entry = None).
Proof.
  intros Hs Hp Hw. split.
  - intros functions Hf Hcat Hget.
    destruct (in_catalog_find _ _ Hcat) as [func Hfind].
    rewrite (update_task_status_new st function_id status notes clock
               new_status progress func Hs Hp Hget)
      by (unfold get_function_by_id; rewrite Hf; simpl; by rewrite Hfind).
    rewrite finish_update_spec, Hw. do 3 eexists. split; [done|].
    split; [done|]. simpl. split; [|done]. by apply dict_set_absent.
  - intros old Hget.
    rewrite (update_task_status_existing st function_id status notes clock
               new_status progress old Hs Hp Hget).
    rewrite finish_update_spec, Hw. do 4 eexists. split; [done|].
    split; [done|]. simpl. split; [apply dict_get_set_eq|]. split; [reflexivity|].
    split; [rewrite length_app; simpl; lia|].
    split; [|done]. simpl.
    rewrite (parse_status_description _ _ Hs). by destruct (t_status old).
Qed.

Lemma first_observation_not_logged_witness :
  (∃ st' r progress',
     update_task_status sample_store "C" "blocked" (Some "note") sample_clock
     = (st', Success r) ∧
     progress_json st' = Some (Ok progress') ∧
     p_tasks progress' =
       p_tasks sample_progress ++
       [("C", mkTaskStatus "C" BLOCKED (Some "note") (now_task sample_clock))] ∧
     p_changelog progress' = p_changelog sample_progress) ∧
  (∃ st' r progress' entry,
     update_task_status sample_store "B" "completed" (Some "note") sample_clock
     = (st', Success r) ∧
     progress_json st' = Some (Ok progress') ∧
     dict_get "B" (p_tasks progress') =
       Some (mkTaskStatus "B" COMPLETED (Some "note") (now_task sample_clock)) ∧
     p_changelog progress' = p_changelog sample_progress ++ [entry] ∧
     length (p_changelog progress') = S (length (p_changelog sample_progress)) ∧
     c_description entry = "状态从 completed 变更为 completed" ∧
     c_function_id entry = Some "B" ∧
     c_action entry = Some "status_change" ∧
     c_timestamp entry = Some (now_log sample_clock) ∧
     c_date entry = None ∧
     c_author entry = None).
Proof.
  split.
  - apply (proj1 (first_observation_not_logged sample_store "C" "blocked" (Some "note")
                    sample_clock BLOCKED sample_progress eq_refl eq_refl eq_refl)
             chain_catalog eq_refl).
    + exists (unit_of_work "C" []). split; [|reflexivity].
      right. right. left.
    + reflexivity.
  - apply (proj2 (first_observation_not_logged sample_store "B" "completed" (Some "note")
                    sample_clock COMPLETED sample_progress eq_refl eq_refl eq_refl)
             (mkTaskStatus "B" COMPLETED (Some "") "t0")).
    reflexivity.
Defined.

(** C7: with a valid status, an id that has neither a task state nor a
    catalog entry makes [update_task_status] fail with an error that names
    the id; the store that comes back is the store that went in, so
    nothing was changed and nothing was saved. *)
Theorem unknown_task_rejected st function_id status notes clock
    new_status progress functions :
  parse_status status = Some new_status →
  read_progress st (now_init clock) = Ok progress →
  dict_get function_id (p_tasks progress) = None →
  read_functions st = Ok functions →
  ¬ in_catalog functions function_id →
  update_task_status st function_id status notes clock
  = (st, Failure ("找不到函数: " +:+ function_id)).
Proof.
  intros Hs Hp Hget Hf Hcat. apply find_function_None in Hcat.
  unfold update_task_status, get_function_by_id.
  rewrite Hs, Hp, Hget, Hf. simpl. by rewrite Hcat.
Qed.

Lemma unknown_task_rejected_witness :
  update_task_status sample_store "Z" "completed" None sample_clock
  = (sample_store, Failure ("找不到函数: " +:+ "Z")).
Proof.
  apply (unknown_task_rejected sample_store "Z" "completed" None sample_clock
           COMPLETED sample_progress chain_catalog eq_refl eq_refl eq_refl eq_refl).
  intros Hcat. apply find_function_None in Hcat; [done | reflexivity].
Defined.

(** C8: for an id that has a task state, the same (id, status, note)
    applied twice in succession, with the same clock readings, appends two
    change-log entries, one per call (the second from the new status to
    itself); the task states, the summary and the summary counts of the
    answer after the second call are those after the first. *)
Theorem retransition_idempotent st function_id status notes clock
    new_status progress old :
  parse_status status = Some new_status →
  read_progress st (now_init clock) = Ok progress →
  dict_get function_id (p_tasks progress) = Some old →
  writable st = true →
  ∃ st1 r1 st2 r2 progress1 progress2,
    update_task_status st function_id status notes clock = (st1, Success r1) ∧
    update_task_status st1 function_id status notes clock = (st2, Success r2) ∧
    progress_json st1 = Some (Ok progress1) ∧
    progress_json st2 = Some (Ok progress2) ∧
    p_changelog progress1 =
      p_changelog progress ++
      [status_change_entry function_id (t_status old) new_status (now_log clock)] ∧
    p_changelog progress2 =
      p_changelog progress ++
      [status_change_entry function_id (t_status old) new_status (now_log clock);
       status_change_entry function_id new_status new_status (now_log clock)] ∧
    length (p_changelog progress2) = S (S (length (p_changelog progress))) ∧
    p_tasks progress2 = p_tasks progress1 ∧
    dict_get function_id (p_tasks progress2) =
      Some (mkTaskStatus (t_id old) new_status notes (now_task clock)) ∧
    p_summary progress2 = p_summary progress1 ∧
    ur_summary r2 = ur_summary r1.
Proof.
  intros Hs Hp Hget Hw.
  pose proof (update_task_status_existing st function_id status notes clock
                new_status progress old Hs Hp Hget) as H1.
  rewrite finish_update_spec, Hw in H1.
  set (tasks1 := dict_set function_id
                   (mkTaskStatus (t_id old) new_status notes (now_task clock))
                   (p_tasks progress)) in *.
  set (log1 := p_changelog progress ++
               [status_change_entry function_id (t_status old) new_status (now_log clock)])
    in *.
  set (q1 := mkProgressData (p_project_name progress) (p_summary progress) tasks1 log1)
    in *.
  set (progress1 := mkProgressData "" (stored_summary q1 function_id new_status)
                      (p_tasks q1) (p_changelog q1)) in *.
  set (st1 := with_progress st (Some (Ok progress1))) in *.
  assert (dict_get function_id (p_tasks progress1)
          = Some (mkTaskStatus (t_id old) new_status notes (now_task clock))) as Hget1
    by apply dict_get_set_eq.
  pose proof (update_task_status_existing st1 function_id status notes clock
                new_status progress1 _ Hs eq_refl Hget1) as H2.
  rewrite finish_update_spec in H2. change (writable st1) with (writable st) in H2.
  rewrite Hw in H2. simpl t_id in H2. simpl t_status in H2.
  assert (dict_set function_id
            (mkTaskStatus (t_id old) new_status notes (now_task clock))
            (p_tasks progress1) = tasks1) as Htasks by apply dict_set_set.
  rewrite Htasks in H2.
  do 6 eexists. split; [exact H1|]. split; [exact H2|].
  split; [reflexivity|]. split; [reflexivity|]. simpl.
  split; [done|]. split; [subst log1; by rewrite <- app_assoc|].
  split; [subst log1; rewrite !length_app; simpl; lia|].
  split; [done|]. split; [apply dict_get_set_eq|].
  split; [|done].
  unfold stored_summary. simpl. by rewrite moved_pointer_idem.
Qed.

Lemma retransition_idempotent_witness :
  ∃ st1 r1 st2 r2 progress1 progress2,
    update_task_status sample_store "A" "completed" (Some "done") sample_clock
    = (st1, Success r1) ∧
    update_task_status st1 "A" "completed" (Some "done") sample_clock
    = (st2, Success r2) ∧
    progress_json st1 = Some (Ok progress1) ∧
    progress_json st2 = Some (Ok progress2) ∧
    p_changelog progress1 =
      p_changelog sample_progress ++
      [status_change_entry "A" PENDING COMPLETED (now_log sample_clock)] ∧
    p_changelog progress2 =
      p_changelog sample_progress ++
      [status_change_entry "A" PENDING COMPLETED (now_log sample_clock);
       status_change_entry "A" COMPLETED COMPLETED (now_log sample_clock)] ∧
    length (p_changelog progress2) = S (S (length (p_changelog sample_progress))) ∧
    p_tasks progress2 = p_tasks progress1 ∧
    dict_get "A" (p_tasks progress2) =
      Some (mkTaskStatus "A" COMPLETED (Some "done") (now_task sample_clock)) ∧
    p_summary progress2 = p_summary progress1 ∧
    ur_summary r2 = ur_summary r1.
Proof.
  apply (retransition_idempotent sample_store "A" "completed" (Some "done") sample_clock
           COMPLETED sample_progress (mkTaskStatus "A" PENDING (Some "") "t0")
           eq_refl eq_refl eq_refl eq_refl).
Defined.

(** ** Properties of the current-task resolution *)

(** C3, as amended: when no task is in progress, the resolution selects the
    first item of the task mapping, in iteration order, that is pending
    and ready; a task id is ready iff it has a catalog entry and either
    declares no dependencies or every declared dependency id has a task
    state whose status is completed; a declared dependency id without a
    task state, or with a status other than completed, makes the task not
    ready, so the scan passes over it. *)
Theorem first_ready_pending_selected func_map (tasks : odict TaskStatus) :
  (∀ item, item ∈ tasks → t_status item.2 ≠ IN_PROGRESS) →
  resolve_current_task func_map tasks = find (is_ready_pending_item func_map tasks) tasks ∧
  (∀ func_id,
     is_task_ready func_map tasks func_id = true ↔
     is_Some (func_map !! func_id) ∧ ready_as_specified func_map tasks func_id) ∧
  (∀ func_id func dep_id,
     func_map !! func_id = Some func →
     dep_id ∈ f_dependencies func →
     (dict_get dep_id tasks = None ∨
      ∃ dep_task, dict_get dep_id tasks = Some dep_task ∧ t_status dep_task ≠ COMPLETED) →
     is_task_ready func_map tasks func_id = false).
Proof.
  intros Hnone. split; [|split].
  - rewrite resolve_current_task_spec.
    by destruct (no_in_progress_scan tasks Hnone) as [-> ->].
  - intros func_id. apply is_task_ready_spec.
  - intros func_id func dep_id Hf Hdep Hbad.
    apply not_true_is_false. intros Hready.
    apply is_task_ready_spec in Hready as [_ [Hnil|Hall]].
    + unfold declared_dependencies in Hnil. rewrite Hf in Hnil.
      rewrite Hnil in Hdep. by apply elem_of_nil in Hdep.
    + destruct (Hall dep_id) as (dep_task & Hget & Hst).
      { unfold declared_dependencies. by rewrite Hf. }
      destruct Hbad as [Hbad|(t & Hget' & Hst')]; congruence.
Qed.

Lemma first_ready_pending_selected_witness :
  let func_map := make_func_map chain_catalog in
  let tasks := [task "A" PENDING; task "B" PENDING; task "C" PENDING] in
  resolve_current_task func_map tasks = find (is_ready_pending_item func_map tasks) tasks ∧
  (∀ func_id,
     is_task_ready func_map tasks func_id = true ↔
     is_Some (func_map !! func_id) ∧ ready_as_specified func_map tasks func_id) ∧
  (∀ func_id func dep_id,
     func_map !! func_id = Some func →
     dep_id ∈ f_dependencies func →
     (dict_get dep_id tasks = None ∨
      ∃ dep_task, dict_get dep_id tasks = Some dep_task ∧ t_status dep_task ≠ COMPLETED) →
     is_task_ready func_map tasks func_id = false).
Proof.
  apply (first_ready_pending_selected (make_func_map chain_catalog)
           [task "A" PENDING; task "B" PENDING; task "C" PENDING]).
  intros item Hitem.
  repeat (apply elem_of_cons in Hitem as [->|Hitem]; [discriminate|]).
  by apply elem_of_nil in Hitem.
Defined.

(** C3 as stated fails for a pending task whose id has no catalog entry:
    no dependency is declared for X, which is readiness in the words of
    the specification, and X is the first (and only) pending task, yet it
    is not selected. *)
Lemma uncatalogued_pending_not_selected :
  let func_map := make_func_map chain_catalog in
  let tasks := [task "X" PENDING] in
  (∀ item, item ∈ tasks → t_status item.2 ≠ IN_PROGRESS) ∧
  declared_dependencies func_map "X" = [] ∧
  ready_as_specified func_map tasks "X" ∧
  resolve_current_task func_map tasks = None ∧
  resolve_current_task func_map tasks ≠ Some (task "X" PENDING) ∧
  ∃ r, get_current_task_context (store_of chain_catalog (Some (progress_of tasks))) "t1"
       = Success r ∧ tc_current_task r = None.
Proof.
  cbv zeta.
  assert (declared_dependencies (make_func_map chain_catalog) "X" = []) as Hdecl
    by (vm_compute; reflexivity).
  assert (resolve_current_task (make_func_map chain_catalog) [task "X" PENDING] = None)
    as Hres by (vm_compute; reflexivity).
  split; [|split; [|split; [|split; [|split]]]].
  - intros item Hitem. apply elem_of_cons in Hitem as [->|Hitem]; [discriminate|].
    by apply elem_of_nil in Hitem.
  - exact Hdecl.
  - by left.
  - exact Hres.
  - by rewrite Hres.
  - eexists. split; vm_compute; reflexivity.
Qed.

(** C4: if some task is in progress, the resolution selects the first such
    item in iteration order, whatever pending and ready tasks stand before
    or after it, and the scan ends there: the items behind it do not
    matter. *)
Theorem in_progress_precedence func_map (tasks : odict TaskStatus) :
  (∃ item, item ∈ tasks ∧ t_status item.2 = IN_PROGRESS) →
  ∃ pre item post,
    tasks = pre ++ item :: post ∧
    t_status item.2 = IN_PROGRESS ∧
    (∀ e, e ∈ pre → t_status e.2 ≠ IN_PROGRESS) ∧
    resolve_current_task func_map tasks = Some item ∧
    ∀ rest,
      scan_tasks func_map tasks (pre ++ item :: rest) None None
      = scan_tasks func_map tasks (pre ++ [item]) None None.
Proof.
  intros Hsome.
  destruct (first_in_progress_split tasks Hsome) as (pre & item & post & Heq & Hitem & Hpre).
  exists pre, item, post. split; [done|]. split; [done|]. split; [done|]. split.
  - unfold resolve_current_task. rewrite Heq at 2.
    by rewrite scan_tasks_in_progress.
  - intros rest. by rewrite !scan_tasks_in_progress.
Qed.

Lemma in_progress_precedence_witness :
  let func_map := make_func_map chain_catalog in
  let tasks := [task "C" PENDING; task "B" IN_PROGRESS; task "A" IN_PROGRESS] in
  ∃ pre item post,
    tasks = pre ++ item :: post ∧
    t_status item.2 = IN_PROGRESS ∧
    (∀ e, e ∈ pre → t_status e.2 ≠ IN_PROGRESS) ∧
    resolve_current_task func_map tasks = Some item ∧
    ∀ rest,
      scan_tasks func_map tasks (pre ++ item :: rest) None None
      = scan_tasks func_map tasks (pre ++ [item]) None None.
Proof.
  apply (in_progress_precedence (make_func_map chain_catalog)
           [task "C" PENDING; task "B" IN_PROGRESS; task "A" IN_PROGRESS]).
  exists (task "B" IN_PROGRESS). split; [|reflexivity].
  right. left.
Defined.

(** C10: a task id without a catalog entry is not ready, whatever the task
    states are; the resolution never selects a pending item under that
    key; and no successful answer of [get_current_task_context] names it
    as the current task. *)
Theorem uncatalogued_never_current functions (tasks : odict TaskStatus) func_id :
  ¬ in_catalog functions func_id →
  is_task_ready (make_func_map functions) tasks func_id = false ∧
  (∀ task, t_status task = PENDING →
     resolve_current_task (make_func_map functions) tasks ≠ Some (func_id, task)) ∧
  (∀ st now progress r current,
     read_functions st = Ok functions →
     read_progress st now = Ok progress →
     get_current_task_context st now = Success r →
     tc_current_task r = Some current →
     ct_task_id current ≠ func_id).
Proof.
  intros Hcat.
  assert (is_task_ready (make_func_map functions) tasks func_id = false) as Hready.
  { unfold is_task_ready. by rewrite (make_func_map_None _ _ Hcat). }
  split; [done|]. split.
  - intros task Hpending Hres. rewrite resolve_current_task_spec in Hres.
    destruct (find is_in_progress_item tasks) as [entry|] eqn:Hip.
    + injection Hres as ->. apply find_some in Hip as [_ Hip].
      unfold is_in_progress_item in Hip. apply bool_decide_eq_true_1 in Hip.
      simpl in Hip. congruence.
    + apply find_some in Hres as [_ Hres]. unfold is_ready_pending_item in Hres.
      apply andb_true_iff in Hres as [_ Hres]. simpl in Hres. congruence.
  - intros st now progress r current Hf Hp Hr Hcur.
    pose proof (get_current_task_context_current st now progress functions r Hp Hf Hr)
      as Hinv.
    destruct (resolve_current_task _ _) as [[k t]|]; [|congruence].
    destruct Hinv as (func_def & Hmap & Heq). rewrite Hcur in Heq.
    injection Heq as ->. simpl. intros Hid. apply Hcat.
    exists func_def. apply make_func_map_Some in Hmap as [? ?]. split; [done|congruence].
Qed.

Lemma uncatalogued_never_current_witness :
  let tasks := [task "X" PENDING; task "C" PENDING] in
  is_task_ready (make_func_map chain_catalog) tasks "X" = false ∧
  (∀ task, t_status task = PENDING →
     resolve_current_task (make_func_map chain_catalog) tasks ≠ Some ("X", task)) ∧
  (∀ st now progress r current,
     read_functions st = Ok chain_catalog →
     read_progress st now = Ok progress →
     get_current_task_context st now = Success r →
     tc_current_task r = Some current →
     ct_task_id current ≠ "X").
Proof.
  apply (uncatalogued_never_current chain_catalog
           [task "X" PENDING; task "C" PENDING] "X").
  intros Hcat. apply find_function_None in Hcat; [done | reflexivity].
Defined.

(** ** Further properties of [update_task_status] *)

Lemma parse_status_value s : parse_status (status_value s) = Some s.
Proof. by destruct s. Qed.

Lemma parse_status_Some str s : parse_status str = Some s → status_value s = str.
Proof.
  unfold parse_status.
  destruct (String.eqb str "pending") eqn:E1;
    [apply String.eqb_eq in E1; by intros [= <-]|].
  destruct (String.eqb str "in_progress") eqn:E2;
    [apply String.eqb_eq in E2; by intros [= <-]|].
  destruct (String.eqb str "completed") eqn:E3;
    [apply String.eqb_eq in E3; by intros [= <-]|].
  destruct (String.eqb str "blocked") eqn:E4;
    [apply String.eqb_eq in E4; by intros [= <-]|].
  done.
Qed.

(** Everything a successful transition returns: the store and the answer. *)
Lemma update_task_status_inv st function_id status notes clock st' r :
  update_task_status st function_id status notes clock = (st', Success r) →
  ∃ new_status progress q,
    parse_status status = Some new_status ∧
    read_progress st (now_init clock) = Ok progress ∧
    writable st = true ∧
    ((dict_get function_id (p_tasks progress) = None ∧
      q = mkProgressData (p_project_name progress) (p_summary progress)
            (dict_set function_id
               (mkTaskStatus function_id new_status notes (now_task clock))
               (p_tasks progress))
            (p_changelog progress))
     ∨
     (∃ old, dict_get function_id (p_tasks progress) = Some old ∧
      q = mkProgressData (p_project_name progress) (p_summary progress)
            (dict_set function_id
               (mkTaskStatus (t_id old) new_status notes (now_task clock))
               (p_tasks progress))
            (p_changelog progress ++
             [status_change_entry function_id (t_status old) new_status
                (now_log clock)]))) ∧
    st' = with_progress st
            (Some (Ok (mkProgressData "" (stored_summary q function_id new_status)
                         (p_tasks q) (p_changelog q)))) ∧
    r = mkUpdateResult function_id (status_value new_status) notes
          (t_updated_at <$> dict_get function_id (p_tasks q))
          (mkSummaryCounts (Z.of_nat (length (p_tasks q)))
             (count_status COMPLETED (p_tasks q)) (count_status IN_PROGRESS (p_tasks q))
             (count_status PENDING (p_tasks q)) (count_status BLOCKED (p_tasks q))).
Proof.
  unfold update_task_status.
  destruct (parse_status status) as [new_status|]; [|done].
  destruct (read_progress st (now_init clock)) as [e|progress]; [done|].
  destruct (dict_get function_id (p_tasks progress)) as [old|] eqn:Hget.
  - rewrite finish_update_spec. destruct (writable st) eqn:Hw; [|done].
    intros [= <- <-]. eexists new_status, progress, _.
    split; [done|]. split; [done|]. split; [done|].
    split; [right; exists old; split; [done|reflexivity]|]. done.
  - destruct (get_function_by_id st function_id) as [e|[func|]] eqn:Hf; [done| |done].
    rewrite finish_update_spec. destruct (writable st) eqn:Hw; [|done].
    intros [= <- <-]. eexists new_status, progress, _.
    split; [done|]. split; [done|]. split; [done|].
    split; [left; split; [done|reflexivity]|]. done.
Qed.

Lemma finish_update_Failure st progress function_id new_status notes st' e :
  finish_update st progress function_id new_status notes = (st', Failure e) →
  writable st = false ∧ e = write_error st ∧
  st' = match after_failed_write st with
        | None => st
        | Some leftover => with_progress st (Some leftover)
        end.
Proof.
  rewrite finish_update_spec. destruct (writable st); [done|]. by intros [= <- <-].
Qed.

Lemma dict_set_keys_absent {V} (k : string) (v : V) (d : odict V) :
  dict_get k d = None → dict_keys (dict_set k v d) = dict_keys d ++ [k].
Proof.
  intros H. rewrite (dict_set_absent k v d H). unfold dict_keys. by rewrite map_app.
Qed.

Lemma count_status_app status tasks1 tasks2 :
  count_status status (tasks1 ++ tasks2)
  = count_status status tasks1 + count_status status tasks2.
Proof.
  induction tasks1 as [|[k t] tasks1 IH]; simpl.
  - unfold count_status at 2. simpl. lia.
  - rewrite !count_status_cons, IH. lia.
Qed.

Lemma count_status_set_present status k (t old : TaskStatus) tasks :
  dict_get k tasks = Some old →
  count_status status (dict_set k t tasks)
  = count_status status tasks
    - (if decide (t_status old = status) then 1 else 0)
    + (if decide (t_status t = status) then 1 else 0).
Proof.
  induction tasks as [|[k' t'] tasks IH]; simpl; [done|].
  destruct (String.eqb k' k) eqn:E.
  - intros [= ->]. rewrite !count_status_cons. lia.
  - intros H. rewrite !count_status_cons, (IH H). lia.
Qed.

Lemma dict_set_length_present {V} (k : string) (v v0 : V) (d : odict V) :
  dict_get k d = Some v0 → length (dict_set k v d) = length d.
Proof.
  intros H. pose proof (dict_set_keys_present k v v0 d H) as Hk.
  apply (f_equal length) in Hk. unfold dict_keys in Hk. by rewrite !length_map in Hk.
Qed.

(** X1: a status other than the four recognised strings is rejected before
    anything is read: the answer is the error that quotes the status and
    lists the valid values, and the store is the one that went in, whatever
    it holds. *)
Theorem invalid_status_rejected st function_id status notes clock :
  status ≠ "pending" → status ≠ "in_progress" →
  status ≠ "completed" → status ≠ "blocked" →
  update_task_status st function_id status notes clock
  = (st, Failure ("无效的状态: " +:+ status +:+
                  "。有效值: pending, in_progress, completed, blocked")).
Proof.
  intros H1 H2 H3 H4. unfold update_task_status, parse_status.
  apply String.eqb_neq in H1, H2, H3, H4. by rewrite H1, H2, H3, H4.
Qed.

Lemma invalid_status_rejected_witness :
  update_task_status sample_store "A" "done" None sample_clock
  = (sample_store, Failure ("无效的状态: " +:+ "done" +:+
                            "。有效值: pending, in_progress, completed, blocked")).
Proof.
  apply (invalid_status_rejected sample_store "A" "done" None sample_clock);
    discriminate.
Defined.

(** X2: the status strings and the enumeration round-trip: the value of
    every status parses back to it, and a string that parses is the value
    of what it parses to. *)
Theorem status_round_trip :
  (∀ s, parse_status (status_value s) = Some s) ∧
  (∀ str s, parse_status str = Some s ↔ status_value s = str).
Proof.
  split; [apply parse_status_value|]. intros str s. split.
  - apply parse_status_Some.
  - intros <-. apply parse_status_value.
Qed.

(** X3: a call of [update_task_status] that answers with an error never
    touches the catalog, and returns the store it was given on every
    failure path but one: when the error is that of a failed write of
    [progress.json] that got as far as opening the file, the progress file
    is what that write left behind. *)
Theorem failed_update_changes_nothing st function_id status notes clock st' e :
  update_task_status st function_id status notes clock = (st', Failure e) →
  functions_json st' = functions_json st ∧
  dir_name st' = dir_name st ∧
  (st' = st ∨
   (writable st = false ∧ e = write_error st ∧
    ∃ leftover, after_failed_write st = Some leftover ∧
                progress_json st' = Some leftover)).
Proof.
  assert (∀ progress new_status,
            finish_update st progress function_id new_status notes = (st', Failure e) →
            functions_json st' = functions_json st ∧
            dir_name st' = dir_name st ∧
            (st' = st ∨
             (writable st = false ∧ e = write_error st ∧
              ∃ leftover, after_failed_write st = Some leftover ∧
                          progress_json st' = Some leftover))) as Hfinish.
  { intros progress new_status H.
    apply finish_update_Failure in H as (Hw & He & ->).
    destruct (after_failed_write st) as [leftover|] eqn:Hleft.
    - split; [done|]. split; [done|]. right. split; [done|]. split; [done|].
      by exists leftover.
    - split; [done|]. split; [done|]. by left. }
  unfold update_task_status.
  destruct (parse_status status) as [new_status|];
    [|intros [= <- _]; split; [done|]; split; [done|]; by left].
  destruct (read_progress st (now_init clock)) as [err|progress];
    [intros [= <- _]; split; [done|]; split; [done|]; by left|].
  destruct (dict_get function_id (p_tasks progress)) as [old|].
  - apply Hfinish.
  - destruct (get_function_by_id st function_id) as [err|[func|]];
      [intros [= <- _]; split; [done|]; split; [done|]; by left
      | apply Hfinish
      | intros [= <- _]; split; [done|]; split; [done|]; by left].
Qed.

Lemma failed_update_changes_nothing_witness :
  let st := mkStore "demo" (Ok chain_catalog) (Some (Ok sample_progress)) false
              "disk full" (Some (Raise "truncated")) in
  let st' := (update_task_status st "A" "completed" None sample_clock).1 in
  functions_json st' = functions_json st ∧
  dir_name st' = dir_name st ∧
  (st' = st ∨
   (writable st = false ∧ "disk full" = write_error st ∧
    ∃ leftover, after_failed_write st = Some leftover ∧
                progress_json st' = Some leftover)).
Proof.
  cbv zeta.
  eapply (failed_update_changes_nothing
            (mkStore "demo" (Ok chain_catalog) (Some (Ok sample_progress)) false
               "disk full" (Some (Raise "truncated")))
            "A" "completed" None sample_clock).
  reflexivity.
Defined.

(** X4: a successful transition touches one task state only: every other
    id keeps its task state, the keys keep their order (a new id goes
    last), distinct keys stay distinct, and the catalog is left alone. *)
Theorem update_keeps_other_tasks st function_id status notes clock st' r :
  update_task_status st function_id status notes clock = (st', Success r) →
  ∃ progress progress',
    read_progress st (now_init clock) = Ok progress ∧
    progress_json st' = Some (Ok progress') ∧
    (∀ other, other ≠ function_id →
       dict_get other (p_tasks progress') = dict_get other (p_tasks progress)) ∧
    dict_keys (p_tasks progress') =
      match dict_get function_id (p_tasks progress) with
      | Some _ => dict_keys (p_tasks progress)
      | None => dict_keys (p_tasks progress) ++ [function_id]
      end ∧
    (dict_wf (p_tasks progress) → dict_wf (p_tasks progress')) ∧
    functions_json st' = functions_json st.
Proof.
  intros H. apply update_task_status_inv in H
    as (ns & progress & q & _ & Hp & _ & Hq & -> & _).
  exists progress. eexists. split; [done|]. split; [reflexivity|]. simpl.
  destruct Hq as [(Hget & ->)|(old & Hget & ->)]; rewrite Hget; simpl.
  - split; [intros other Hne; by apply dict_get_set_ne|].
    split; [by apply dict_set_keys_absent|]. split; [apply dict_set_wf | done].
  - split; [intros other Hne; by apply dict_get_set_ne|].
    split; [by eapply dict_set_keys_present|]. split; [apply dict_set_wf | done].
Qed.

Lemma update_keeps_other_tasks_witness :
  ∃ progress progress',
    read_progress sample_store (now_init sample_clock) = Ok progress ∧
    progress_json (update_task_status sample_store "A" "blocked" None sample_clock).1
    = Some (Ok progress') ∧
    (∀ other, other ≠ "A" →
       dict_get other (p_tasks progress') = dict_get other (p_tasks progress)) ∧
    dict_keys (p_tasks progress') =
      match dict_get "A" (p_tasks progress) with
      | Some _ => dict_keys (p_tasks progress)
      | None => dict_keys (p_tasks progress) ++ ["A"]
      end ∧
    (dict_wf (p_tasks progress) → dict_wf (p_tasks progress')) ∧
    functions_json (update_task_status sample_store "A" "blocked" None sample_clock).1
    = functions_json sample_store.
Proof.
  eapply (update_keeps_other_tasks sample_store "A" "blocked" None sample_clock).
  reflexivity.
Defined.

(** X5: the change log is append-only: after a successful transition the
    old log is a prefix of the stored one, at most one entry was added, and
    an added entry is a [status_change] of the transitioned id stamped with
    the log clock. *)
Theorem changelog_append_only st function_id status notes clock st' r :
  update_task_status st function_id status notes clock = (st', Success r) →
  ∃ progress progress' added,
    read_progress st (now_init clock) = Ok progress ∧
    progress_json st' = Some (Ok progress') ∧
    p_changelog progress' = p_changelog progress ++ added ∧
    (length added ≤ 1)%nat ∧
    ∀ entry, entry ∈ added →
      c_function_id entry = Some function_id ∧
      c_action entry = Some "status_change" ∧
      c_timestamp entry = Some (now_log clock).
Proof.
  intros H. apply update_task_status_inv in H
    as (ns & progress & q & _ & Hp & _ & Hq & -> & _).
  exists progress. eexists.
  destruct Hq as [(_ & ->)|(old & _ & ->)].
  - exists []. split; [done|]. split; [reflexivity|]. simpl.
    rewrite app_nil_r. split; [done|]. split; [lia|].
    intros entry Hin. by apply elem_of_nil in Hin.
  - eexists. split; [done|]. split; [reflexivity|]. simpl.
    split; [reflexivity|]. split; [simpl; lia|].
    intros entry Hin. apply list_elem_of_singleton in Hin. by subst.
Qed.

Lemma changelog_append_only_witness :
  ∃ progress progress' added,
    read_progress sample_store (now_init sample_clock) = Ok progress ∧
    progress_json (update_task_status sample_store "A" "blocked" None sample_clock).1
    = Some (Ok progress') ∧
    p_changelog progress' = p_changelog progress ++ added ∧
    (length added ≤ 1)%nat ∧
    ∀ entry, entry ∈ added →
      c_function_id entry = Some "A" ∧
      c_action entry = Some "status_change" ∧
      c_timestamp entry = Some (now_log sample_clock).
Proof.
  eapply (changelog_append_only sample_store "A" "blocked" None sample_clock).
  reflexivity.
Defined.

(** X6: how a successful transition moves the counts, relative to a
    recount of the task states it found: a first observation raises the
    number of tasks and the count of the new status by one; a transition of
    an existing task keeps the number of tasks, takes one off the count of
    the old status and adds one to the count of the new status. *)
Theorem update_counts_shift st function_id status notes clock st' r :
  update_task_status st function_id status notes clock = (st', Success r) →
  ∃ new_status progress progress',
    parse_status status = Some new_status ∧
    read_progress st (now_init clock) = Ok progress ∧
    progress_json st' = Some (Ok progress') ∧
    match dict_get function_id (p_tasks progress) with
    | None =>
        s_total (p_summary progress') = Z.of_nat (length (p_tasks progress)) + 1 ∧
        ∀ s, count_status s (p_tasks progress')
             = count_status s (p_tasks progress)
               + (if decide (new_status = s) then 1 else 0)
    | Some old =>
        s_total (p_summary progress') = Z.of_nat (length (p_tasks progress)) ∧
        ∀ s, count_status s (p_tasks progress')
             = count_status s (p_tasks progress)
               - (if decide (t_status old = s) then 1 else 0)
               + (if decide (new_status = s) then 1 else 0)
    end.
Proof.
  intros H. apply update_task_status_inv in H
    as (ns & progress & q & Hs & Hp & _ & Hq & -> & _).
  exists ns, progress. eexists. split; [done|]. split; [done|].
  split; [reflexivity|]. simpl.
  destruct Hq as [(Hget & ->)|(old & Hget & ->)]; rewrite Hget; simpl.
  - rewrite (dict_set_absent _ _ _ Hget). split.
    + rewrite length_app. simpl. lia.
    + intros s. rewrite count_status_app.
      rewrite (count_status_cons s function_id _ []).
      change (count_status s []) with 0. simpl. lia.
  - split.
    + by rewrite (dict_set_length_present _ _ old).
    + intros s. by rewrite (count_status_set_present s _ _ old).
Qed.

Lemma update_counts_shift_witness :
  ∃ new_status progress progress',
    parse_status "completed" = Some new_status ∧
    read_progress sample_store (now_init sample_clock) = Ok progress ∧
    progress_json (update_task_status sample_store "A" "completed" None sample_clock).1
    = Some (Ok progress') ∧
    match dict_get "A" (p_tasks progress) with
    | None =>
        s_total (p_summary progress') = Z.of_nat (length (p_tasks progress)) + 1 ∧
        ∀ s, count_status s (p_tasks progress')
             = count_status s (p_tasks progress)
               + (if decide (new_status = s) then 1 else 0)
    | Some old =>
        s_total (p_summary progress') = Z.of_nat (length (p_tasks progress)) ∧
        ∀ s, count_status s (p_tasks progress')
             = count_status s (p_tasks progress)
               - (if decide (t_status old = s) then 1 else 0)
               + (if decide (new_status = s) then 1 else 0)
    end.
Proof.
  eapply (update_counts_shift sample_store "A" "completed" None sample_clock).
  reflexivity.
Defined.

(** X7: the answer of a successful transition mirrors what was saved: it
    echoes the id, the status string and the note, its timestamp and its
    five counters are those of the stored task state and summary, and the
    stored task state of the id holds the requested status, the note and
    the task clock. *)
Theorem answer_mirrors_saved st function_id status notes clock st' r :
  update_task_status st function_id status notes clock = (st', Success r) →
  ∃ new_status progress' task,
    parse_status status = Some new_status ∧
    progress_json st' = Some (Ok progress') ∧
    dict_get function_id (p_tasks progress') = Some task ∧
    t_status task = new_status ∧
    t_notes task = notes ∧
    t_updated_at task = now_task clock ∧
    ur_function_id r = function_id ∧
    ur_new_status r = status ∧
    ur_notes r = notes ∧
    ur_updated_at r = Some (t_updated_at task) ∧
    ur_summary r =
      mkSummaryCounts (s_total (p_summary progress')) (s_completed (p_summary progress'))
        (s_in_progress (p_summary progress')) (s_pending (p_summary progress'))
        (s_blocked (p_summary progress')).
Proof.
  intros H. apply update_task_status_inv in H
    as (ns & progress & q & Hs & Hp & _ & Hq & -> & ->).
  pose proof (parse_status_Some _ _ Hs) as Hval.
  destruct Hq as [(Hget & ->)|(old & Hget & ->)]; simpl;
    (exists ns; do 2 eexists; split; [done|]; split; [reflexivity|]; simpl;
     rewrite dict_get_set_eq; split; [reflexivity|]; simpl; repeat split; done).
Qed.

Lemma answer_mirrors_saved_witness :
  ∃ r,
    (update_task_status sample_store "C" "in_progress" (Some "n") sample_clock).2
    = Success r ∧
    ∃ new_status progress' task,
      parse_status "in_progress" = Some new_status ∧
      progress_json
        (update_task_status sample_store "C" "in_progress" (Some "n") sample_clock).1
      = Some (Ok progress') ∧
      dict_get "C" (p_tasks progress') = Some task ∧
      t_status task = new_status ∧
      t_notes task = Some "n" ∧
      t_updated_at task = now_task sample_clock ∧
      ur_function_id r = "C" ∧
      ur_new_status r = "in_progress" ∧
      ur_notes r = Some "n" ∧
      ur_updated_at r = Some (t_updated_at task) ∧
      ur_summary r =
        mkSummaryCounts (s_total (p_summary progress'))
          (s_completed (p_summary progress')) (s_in_progress (p_summary progress'))
          (s_pending (p_summary progress')) (s_blocked (p_summary progress')).
Proof.
  eexists. split; [reflexivity|].
  eapply (answer_mirrors_saved sample_store "C" "in_progress" (Some "n") sample_clock).
  reflexivity.
Defined.

(** ** Reading back after a transition *)

Lemma count_status_le status tasks :
  0 ≤ count_status status tasks ≤ Z.of_nat (length tasks).
Proof.
  pose proof (count_status_total tasks) as Hsum.
  assert (∀ s, 0 ≤ count_status s tasks) as Hpos
    by (intros s; unfold count_status; lia).
  pose proof (Hpos COMPLETED). pose proof (Hpos IN_PROGRESS).
  pose proof (Hpos PENDING). pose proof (Hpos BLOCKED).
  destruct status; lia.
Qed.

Lemma float_overflow_bound_gt : 1 < float_overflow_bound.
Proof. by vm_compute. Qed.

(** A quotient of at most one is far from the float range. *)
Lemma division_safe completed total :
  0 ≤ completed ≤ total → 0 < total → division_overflows completed total = false.
Proof.
  intros Hc Ht. unfold division_overflows. apply Z.leb_gt.
  rewrite (Z.abs_eq total), (Z.abs_eq completed) by lia.
  pose proof float_overflow_bound_gt as Hb. revert Hb.
  generalize float_overflow_bound. intros bound Hb. nia.
Qed.

(** After a recount the rate can be computed. *)
Lemma recount_rate_safe progress function_id new_status :
  rate_raises (stored_summary progress function_id new_status) = false.
Proof.
  unfold rate_raises, stored_summary. simpl.
  destruct (0 <? Z.of_nat (length (p_tasks progress))) eqn:E; [|done].
  apply Z.ltb_lt in E. apply division_safe; [apply count_status_le | done].
Qed.

(** X8: [get_project_status] on the store that a successful transition
    returns reports the recomputed figures: the total is the number of task
    states, each counter is the number of task states with that status,
    the current task is the stored pointer, and, the total being positive,
    the rate is the computed one and not the zero default. *)
Theorem status_after_transition format_rate st function_id status notes clock st' r now :
  update_task_status st function_id status notes clock = (st', Success r) →
  ∃ overview progress',
    get_project_status format_rate st' now = Success overview ∧
    progress_json st' = Some (Ok progress') ∧
    so_total_tasks overview = Z.of_nat (length (p_tasks progress')) ∧
    so_completed overview = count_status COMPLETED (p_tasks progress') ∧
    so_in_progress overview = count_status IN_PROGRESS (p_tasks progress') ∧
    so_pending overview = count_status PENDING (p_tasks progress') ∧
    so_blocked overview = count_status BLOCKED (p_tasks progress') ∧
    so_current_task overview = s_current_task (p_summary progress') ∧
    0 < so_total_tasks overview ∧
    so_completion_rate overview
    = format_rate (so_completed overview) (so_total_tasks overview).
Proof.
  intros H. apply update_task_status_inv in H
    as (ns & progress & q & _ & _ & _ & Hq & -> & _).
  assert (0 < Z.of_nat (length (p_tasks q))) as Hpos.
  { assert (is_Some (dict_get function_id (p_tasks q))) as [t Ht]
      by (destruct Hq as [(_ & ->)|(old & _ & ->)]; simpl;
          rewrite dict_get_set_eq; by eexists).
    destruct (p_tasks q); [done | simpl; lia]. }
  unfold get_project_status, read_progress. simpl. rewrite recount_rate_safe.
  do 2 eexists. split; [reflexivity|]. split; [reflexivity|]. simpl.
  repeat (split; [done|]). unfold completion_rate. simpl.
  by rewrite (proj2 (Z.ltb_lt _ _) Hpos).
Qed.

Lemma status_after_transition_witness :
  ∃ overview progress',
    get_project_status sample_rate
      (update_task_status sample_store "A" "completed" None sample_clock).1 "t9"
    = Success overview ∧
    progress_json (update_task_status sample_store "A" "completed" None sample_clock).1
    = Some (Ok progress') ∧
    so_total_tasks overview = Z.of_nat (length (p_tasks progress')) ∧
    so_completed overview = count_status COMPLETED (p_tasks progress') ∧
    so_in_progress overview = count_status IN_PROGRESS (p_tasks progress') ∧
    so_pending overview = count_status PENDING (p_tasks progress') ∧
    so_blocked overview = count_status BLOCKED (p_tasks progress') ∧
    so_current_task overview = s_current_task (p_summary progress') ∧
    0 < so_total_tasks overview ∧
    so_completion_rate overview
    = sample_rate (so_completed overview) (so_total_tasks overview).
Proof.
  eapply (status_after_transition sample_rate sample_store "A" "completed" None
            sample_clock).
  reflexivity.
Defined.

(** X9: [get_project_status] never divides by a total that is not positive:
    for a readable progress whose summary total is zero or negative the
    call succeeds and the rate is the string "0.0%"; the other fields are
    the stored ones, not a recount. *)
Theorem status_rate_without_total format_rate st now progress :
  read_progress st now = Ok progress →
  s_total (p_summary progress) ≤ 0 →
  ∃ overview,
    get_project_status format_rate st now = Success overview ∧
    so_completion_rate overview = "0.0%" ∧
    so_total_tasks overview = s_total (p_summary progress) ∧
    so_completed overview = s_completed (p_summary progress) ∧
    so_current_task overview = s_current_task (p_summary progress).
Proof.
  intros Hp Htotal. unfold get_project_status, rate_raises. rewrite Hp.
  rewrite (proj2 (Z.ltb_ge _ _) Htotal). eexists.
  split; [reflexivity|]. simpl. unfold completion_rate.
  by rewrite (proj2 (Z.ltb_ge _ _) Htotal).
Qed.

Lemma status_rate_without_total_witness :
  ∃ overview,
    get_project_status sample_rate (mkStore "demo" (Raise "no catalog") None true "" None) "t9"
    = Success overview ∧
    so_completion_rate overview = "0.0%" ∧
    so_total_tasks overview = 0 ∧
    so_completed overview = 0 ∧
    so_current_task overview = None.
Proof.
  apply (status_rate_without_total sample_rate
           (mkStore "demo" (Raise "no catalog") None true "" None) "t9"
           (mkProgressData "" (mkProjectProgress "Unknown" 0 0 0 0 0 None) [] [])).
  - reflexivity.
  - simpl. lia.
Defined.

(** X10: after a successful transition of an id that the catalog holds,
    [get_function_def] for that id on the returned store succeeds with the
    first catalog entry of the id, the status string that was requested and
    the note that was given. *)
Theorem function_def_after_transition st function_id status notes clock st' r
    functions now :
  update_task_status st function_id status notes clock = (st', Success r) →
  read_functions st = Ok functions →
  in_catalog functions function_id →
  ∃ info func,
    get_function_def st' function_id now = Success info ∧
    find_function functions function_id = Some func ∧
    fn_function info = func ∧
    fn_status info = status ∧
    fn_notes info = notes.
Proof.
  intros H Hf Hcat. apply update_task_status_inv in H
    as (ns & progress & q & Hs & _ & _ & Hq & -> & _).
  destruct (in_catalog_find _ _ Hcat) as [func Hfind].
  pose proof (parse_status_Some _ _ Hs) as Hval.
  unfold get_function_def, get_function_by_id, read_functions, read_progress in *.
  simpl. rewrite Hf. simpl. rewrite Hfind.
  destruct Hq as [(_ & ->)|(old & _ & ->)]; simpl; rewrite dict_get_set_eq;
    do 2 eexists; (split; [reflexivity|]); simpl; done.
Qed.

Lemma function_def_after_transition_witness :
  ∃ info func,
    get_function_def
      (update_task_status sample_store "B" "blocked" (Some "why") sample_clock).1 "B" "t9"
    = Success info ∧
    find_function chain_catalog "B" = Some func ∧
    fn_function info = func ∧
    fn_status info = "blocked" ∧
    fn_notes info = Some "why".
Proof.
  eapply (function_def_after_transition sample_store "B" "blocked" (Some "why")
            sample_clock).
  - reflexivity.
  - reflexivity.
  - exists (unit_of_work "B" ["C"]). split; [right; left | reflexivity].
Defined.

(** ** A project without a progress file *)

Lemma seed_tasks_get now functions :
  ∀ index (d : odict TaskStatus) k,
    (¬ in_catalog functions k ∧
     dict_get k (seed_tasks now index functions d) = dict_get k d)
    ∨
    (∃ i func,
       functions !! i = Some func ∧ f_id func = k ∧
       (∀ j func', functions !! j = Some func' → f_id func' = k → (j ≤ i)%nat) ∧
       dict_get k (seed_tasks now index functions d)
       = Some (mkTaskStatus k PENDING (Some "") (now (index + i)%nat))).
Proof.
  induction functions as [|f rest IH]; intros index d k.
  - left. split; [|done]. intros (func & Hin & _). by apply elem_of_nil in Hin.
  - simpl. destruct (IH (S index)
                       (dict_set (f_id f) (default_TaskStatus (f_id f) PENDING (now index)) d)
                       k) as [[Hrest Hget]|(i & func & Hi & Hid & Hlast & Hget)].
    + destruct (decide (f_id f = k)) as [Heq|Hne].
      * right. exists 0%nat, f. split; [done|]. split; [done|]. split.
        -- intros j func' Hj Hid'. destruct j as [|j]; [lia|]. exfalso. apply Hrest.
           exists func'. split; [|done]. apply list_elem_of_lookup. by exists j.
        -- rewrite Hget, <- Heq, dict_get_set_eq, Nat.add_0_r. done.
      * left. split.
        -- intros (func & Hin & Hid). apply elem_of_cons in Hin as [->|Hin]; [done|].
           apply Hrest. by exists func.
        -- rewrite Hget. by apply dict_get_set_ne.
    + right. exists (S i), func. split; [done|]. split; [done|]. split.
      * intros j func' Hj Hid'. destruct j as [|j]; [lia|].
        specialize (Hlast j func' Hj Hid'). lia.
      * rewrite Hget. by rewrite Nat.add_succ_r.
Qed.

Lemma seed_tasks_wf now functions :
  ∀ index (d : odict TaskStatus), dict_wf d → dict_wf (seed_tasks now index functions d).
Proof.
  induction functions as [|f rest IH]; intros index d Hd; simpl; [done|].
  by apply IH, dict_set_wf.
Qed.

Lemma seed_tasks_keys now functions :
  ∀ index (d : odict TaskStatus),
    NoDup (dict_keys d ++ map f_id functions) →
    dict_keys (seed_tasks now index functions d) = dict_keys d ++ map f_id functions.
Proof.
  induction functions as [|f rest IH]; intros index d Hnd; simpl.
  - by rewrite app_nil_r.
  - assert (dict_get (f_id f) d = None) as Hget.
    { apply dict_get_None_keys. intros Hin.
      apply NoDup_app in Hnd as (_ & Hdisj & _). apply (Hdisj _ Hin). left. }
    rewrite IH; rewrite (dict_set_keys_absent _ _ _ Hget).
    + by rewrite <- app_assoc.
    + by rewrite <- app_assoc.
Qed.

Lemma seed_tasks_length now functions :
  ∀ index (d : odict TaskStatus),
    (length (seed_tasks now index functions d) ≤ length d + length functions)%nat.
Proof.
  induction functions as [|f rest IH]; intros index d; simpl; [lia|].
  etransitivity; [apply IH|].
  assert (length (dict_set (f_id f) (default_TaskStatus (f_id f) PENDING (now index)) d)
          ≤ S (length d))%nat; [|lia].
  generalize (default_TaskStatus (f_id f) PENDING (now index)). intros v.
  induction d as [|[k v'] d IHd]; simpl; [lia|].
  destruct (String.eqb k (f_id f)); simpl; lia.
Qed.

(** X11: when [progress.json] does not exist and the catalog is readable,
    [read_progress] seeds the state from the catalog: every catalog id, and
    no other id, has a task state, which is pending with an empty note and
    the clock reading taken for the last catalog entry of that id (one
    reading per entry, in catalog order); keys are distinct; the change
    log is empty; the summary counts every catalog entry as pending.  The
    number of task states never exceeds that total, and when the catalog
    ids are distinct the keys are the catalog ids in catalog order and the
    total is the number of task states. *)
Theorem fresh_project_all_pending st now functions :
  progress_json st = None →
  read_functions st = Ok functions →
  ∃ progress,
    read_progress st now = Ok progress ∧
    (∀ k, in_catalog functions k →
       ∃ i func,
         functions !! i = Some func ∧ f_id func = k ∧
         (∀ j func', functions !! j = Some func' → f_id func' = k → (j ≤ i)%nat) ∧
         dict_get k (p_tasks progress) = Some (mkTaskStatus k PENDING (Some "") (now i))) ∧
    (∀ k, ¬ in_catalog functions k → dict_get k (p_tasks progress) = None) ∧
    dict_wf (p_tasks progress) ∧
    p_changelog progress = [] ∧
    p_summary progress =
      mkProjectProgress (dir_name st) (Z.of_nat (length functions)) 0 0
        (Z.of_nat (length functions)) 0 None ∧
    Z.of_nat (length (p_tasks progress)) ≤ s_total (p_summary progress) ∧
    (NoDup (map f_id functions) →
     dict_keys (p_tasks progress) = map f_id functions ∧
     s_total (p_summary progress) = Z.of_nat (length (p_tasks progress))).
Proof.
  intros Hnone Hf. unfold read_progress, _init_progress_from_functions.
  rewrite Hnone, Hf. eexists. split; [reflexivity|]. simpl.
  split; [|split; [|split; [|split; [|split; [|split]]]]]; try done.
  - intros k Hcat.
    destruct (seed_tasks_get now functions 0 [] k)
      as [[Hno _]|(i & func & Hi & Hid & Hlast & Hget)]; [done|].
    exists i, func. by rewrite Hget.
  - intros k Hcat.
    destruct (seed_tasks_get now functions 0 [] k)
      as [[_ Hget]|(i & func & Hi & Hid & _)].
    + by rewrite Hget.
    + exfalso. apply Hcat. exists func. split; [|done].
      apply list_elem_of_lookup. by exists i.
  - apply seed_tasks_wf. apply NoDup_nil_2.
  - pose proof (seed_tasks_length now functions 0 []) as Hlen. simpl in Hlen. lia.
  - intros Hnd. pose proof (seed_tasks_keys now functions 0 [] Hnd) as Hkeys.
    simpl in Hkeys. split; [done|].
    apply (f_equal length) in Hkeys. unfold dict_keys in Hkeys.
    rewrite !length_map in Hkeys. by rewrite Hkeys.
Qed.

Lemma fresh_project_all_pending_witness :
  let now := sample_readings in
  ∃ progress,
    read_progress (store_of chain_catalog None) now = Ok progress ∧
    (∀ k, in_catalog chain_catalog k →
       ∃ i func,
         chain_catalog !! i = Some func ∧ f_id func = k ∧
         (∀ j func', chain_catalog !! j = Some func' → f_id func' = k → (j ≤ i)%nat) ∧
         dict_get k (p_tasks progress) = Some (mkTaskStatus k PENDING (Some "") (now i))) ∧
    (∀ k, ¬ in_catalog chain_catalog k → dict_get k (p_tasks progress) = None) ∧
    dict_wf (p_tasks progress) ∧
    p_changelog progress = [] ∧
    p_summary progress =
      mkProjectProgress (dir_name (store_of chain_catalog None))
        (Z.of_nat (length chain_catalog)) 0 0 (Z.of_nat (length chain_catalog)) 0 None ∧
    Z.of_nat (length (p_tasks progress)) ≤ s_total (p_summary progress) ∧
    (NoDup (map f_id chain_catalog) →
     dict_keys (p_tasks progress) = map f_id chain_catalog ∧
     s_total (p_summary progress) = Z.of_nat (length (p_tasks progress))).
Proof.
  apply (fresh_project_all_pending (store_of chain_catalog None)
           sample_readings chain_catalog);
    reflexivity.
Defined.

(** ** The two catalog lookups *)

Lemma fold_insert_fresh functions (m : gmap string FunctionDef) func_id :
  func_id ∉ map f_id functions →
  fold_left (fun m func => <[f_id func := func]> m) functions m !! func_id = m !! func_id.
Proof.
  revert m. induction functions as [|f rest IH]; intros m Hnin; simpl; [done|].
  simpl in Hnin. apply not_elem_of_cons in Hnin as [Hne Hnin].
  rewrite IH by done. by rewrite lookup_insert_ne.
Qed.

Lemma make_func_map_in_catalog functions func_id :
  in_catalog functions func_id → is_Some (make_func_map functions !! func_id).
Proof.
  unfold make_func_map. generalize (∅ : gmap string FunctionDef).
  induction functions as [|f rest IH]; intros m (func & Hin & Hid).
  - by apply elem_of_nil in Hin.
  - simpl. destruct (decide (func_id ∈ map f_id rest)) as [Hrest|Hrest].
    + apply IH. apply list_elem_of_In, in_map_iff in Hrest as (g & Hg & Hgin).
      exists g. split; [by apply list_elem_of_In | done].
    + rewrite fold_insert_fresh by done.
      apply elem_of_cons in Hin as [->|Hin].
      * rewrite Hid, lookup_insert_eq. by eexists.
      * exfalso. apply Hrest. apply list_elem_of_In, in_map_iff.
        exists func. split; [done | by apply list_elem_of_In].
Qed.

Lemma make_func_map_is_Some functions func_id :
  is_Some (make_func_map functions !! func_id) ↔ in_catalog functions func_id.
Proof.
  split; [|apply make_func_map_in_catalog].
  intros [f Hf]. exists f. by apply make_func_map_Some.
Qed.

Lemma find_function_is_Some functions func_id :
  is_Some (find_function functions func_id) ↔ in_catalog functions func_id.
Proof.
  split.
  - intros [f Hf]. exists f. by apply find_function_Some.
  - intros H. destruct (in_catalog_find _ _ H) as [f Hf]. by eexists.
Qed.

(** X12: on a catalog whose ids are distinct the two lookups agree, the
    dict built by the comprehension and the linear search of
    [get_function_by_id]; the two copies of the closure loop then build
    the same set. *)
Theorem lookups_agree_on_distinct_ids functions :
  NoDup (map f_id functions) →
  (∀ func_id, make_func_map functions !! func_id = find_function functions func_id) ∧
  (∀ dependencies,
     collect_deps functions (fun dep_id => make_func_map functions !! dep_id) dependencies
     = collect_deps functions (find_function functions) dependencies).
Proof.
  intros Hnd.
  assert (∀ func_id, make_func_map functions !! func_id = find_function functions func_id)
    as Hagree.
  { intros func_id. unfold make_func_map.
    assert (∀ m : gmap string FunctionDef,
              fold_left (fun m func => <[f_id func := func]> m) functions m !! func_id
              = match find_function functions func_id with
                | Some f => Some f
                | None => m !! func_id
                end) as Hgen.
    { induction functions as [|f rest IH]; intros m; simpl; [done|].
      apply NoDup_cons in Hnd as [Hf Hrest].
      destruct (String.eqb (f_id f) func_id) eqn:E.
      - apply String.eqb_eq in E. subst func_id.
        rewrite fold_insert_fresh by done. apply lookup_insert_eq.
      - apply String.eqb_neq in E. rewrite (IH Hrest).
        destruct (find_function rest func_id); [done|]. by rewrite lookup_insert_ne. }
    rewrite Hgen. by destruct (find_function functions func_id). }
  split; [done|]. intros dependencies. unfold collect_deps.
  generalize (closure_fuel functions (mkClosure ∅ dependencies)).
  generalize (mkClosure ∅ dependencies).
  intros s fuel. revert s. induction fuel as [|fuel IH]; intros s; simpl; [done|].
  destruct (to_process s) as [|dep_id rest]; [done|].
  unfold closure_body. rewrite Hagree. apply IH.
Qed.

Lemma lookups_agree_on_distinct_ids_witness :
  (∀ func_id, make_func_map cyclic_catalog !! func_id
              = find_function cyclic_catalog func_id) ∧
  (∀ dependencies,
     collect_deps cyclic_catalog (fun dep_id => make_func_map cyclic_catalog !! dep_id)
       dependencies
     = collect_deps cyclic_catalog (find_function cyclic_catalog) dependencies).
Proof.
  apply (lookups_agree_on_distinct_ids cyclic_catalog).
  simpl. apply NoDup_cons. split.
  - intros H. apply list_elem_of_singleton in H. discriminate.
  - apply NoDup_singleton.
Defined.

(** ** What the dependency answers list *)

Lemma reachable_ext lookup1 lookup2 roots dep_id :
  (∀ d, lookup1 d = lookup2 d) →
  reachable lookup1 roots dep_id → reachable lookup2 roots dep_id.
Proof.
  intros Hext. induction 1 as [d Hd|d f d' _ IH Hf Hd'].
  - by apply reach_root.
  - eapply reach_dep; [exact IH | by rewrite <- Hext | done].
Qed.

Lemma omap_lookup_ids functions (ids : list string) :
  map f_id (omap (fun func_id => make_func_map functions !! func_id) ids)
  = filter (fun func_id => is_Some (make_func_map functions !! func_id)) ids.
Proof.
  induction ids as [|id ids IH]; [done|].
  rewrite filter_cons.
  change (omap (fun func_id => make_func_map functions !! func_id) (id :: ids))
    with (match make_func_map functions !! id with
          | Some f => f :: omap (fun func_id => make_func_map functions !! func_id) ids
          | None => omap (fun func_id => make_func_map functions !! func_id) ids
          end).
  destruct (make_func_map functions !! id) as [f|] eqn:E.
  - destruct (decide (is_Some (Some f))) as [_|Hn]; [|exfalso; apply Hn; by eexists].
    apply make_func_map_Some in E as [_ Hid]. cbn [map]. by rewrite Hid, IH.
  - destruct (decide (is_Some (@None FunctionDef))) as [[? ?]|_]; [done|]. exact IH.
Qed.

Lemma listed_ids functions (closure : gset string) :
  let ids :=
    map f_id (omap (fun func_id => make_func_map functions !! func_id)
                (set_to_list closure)) in
  (∀ dep_id, dep_id ∈ ids ↔ dep_id ∈ closure ∧ in_catalog functions dep_id) ∧
  NoDup ids.
Proof.
  cbv zeta. rewrite omap_lookup_ids. unfold set_to_list. split.
  - intros dep_id. rewrite list_elem_of_filter, elem_of_elements, make_func_map_is_Some.
    tauto.
  - apply NoDup_filter, NoDup_elements.
Qed.

(** X13: the set that the closure loop builds is exactly the set of ids
    reachable from the given dependencies along declared dependencies,
    with either lookup: nothing unreachable is collected and nothing
    reachable is missed, cycles or not; ids without a catalog entry are
    collected as dead ends. *)
Theorem closure_is_reachable_set functions dependencies dep_id :
  (dep_id ∈ all_dep_ids (collect_deps functions (find_function functions) dependencies) ↔
   reachable (find_function functions) dependencies dep_id) ∧
  (dep_id ∈ all_dep_ids
              (collect_deps functions (fun d => make_func_map functions !! d) dependencies) ↔
   reachable (fun d => make_func_map functions !! d) dependencies dep_id).
Proof.
  split; apply collect_deps_reachable.
  - intros d f H. by apply find_function_Some in H as [? _].
  - intros d f H. by apply make_func_map_Some in H as [? _].
Qed.

(** X14: a successful answer of [get_function_with_deps] describes the
    first catalog entry of the requested id as the main function; the ids
    of its dependency list are exactly the reachable ids that have a
    catalog entry, each listed once, so an unknown dependency id is left
    out without an error; and the reported total is the length of that
    list. *)
Theorem with_deps_answer st function_id now r functions :
  read_functions st = Ok functions →
  get_function_with_deps st function_id now = Success r →
  ∃ main_func,
    find_function functions function_id = Some main_func ∧
    fd_id (wd_main_function r) = function_id ∧
    fd_dependencies (wd_main_function r) = f_dependencies main_func ∧
    (∀ dep_id,
       dep_id ∈ map fd_id (wd_dependencies r) ↔
       reachable (find_function functions) (f_dependencies main_func) dep_id ∧
       in_catalog functions dep_id) ∧
    NoDup (map fd_id (wd_dependencies r)) ∧
    wd_total_dependencies r = Z.of_nat (length (wd_dependencies r)).
Proof.
  intros Hf. unfold get_function_with_deps, get_function_by_id, get_functions_by_ids.
  rewrite Hf. simpl.
  destruct (find_function functions function_id) as [main_func|] eqn:Hmain; [|done].
  destruct (read_progress st now) as [e|progress]; [done|].
  intros [= <-]. exists main_func. simpl.
  split; [done|]. split; [by apply find_function_Some in Hmain as [_ ?]|].
  split; [done|].
  assert (store_functions st = functions) as Hsf
    by (unfold store_functions; by rewrite Hf).
  rewrite Hsf.
  set (closure := all_dep_ids (collect_deps functions (store_lookup st)
                                 (f_dependencies main_func))).
  assert (map fd_id (map (func_to_dict progress)
                       (omap (fun func_id => make_func_map functions !! func_id)
                          (set_to_list closure)))
          = map f_id (omap (fun func_id => make_func_map functions !! func_id)
                        (set_to_list closure))) as Hids
    by (rewrite map_map; by apply map_ext).
  rewrite Hids. destruct (listed_ids functions closure) as [Hin Hnd].
  split; [|split; [done | by rewrite length_map]].
  intros dep_id. rewrite Hin. subst closure.
  rewrite (collect_deps_reachable functions (store_lookup st))
    by (rewrite <- Hsf; apply store_lookup_catalog).
  split; intros [Hreach Hcat]; (split; [|done]);
    (eapply reachable_ext; [|exact Hreach]); intros d;
    by rewrite (store_lookup_Ok st functions d Hf).
Qed.

Lemma with_deps_answer_witness :
  ∃ r,
    get_function_with_deps (store_of cyclic_catalog None) "A" "t1" = Success r ∧
    ∃ main_func,
      find_function cyclic_catalog "A" = Some main_func ∧
      fd_id (wd_main_function r) = "A" ∧
      fd_dependencies (wd_main_function r) = f_dependencies main_func ∧
      (∀ dep_id,
         dep_id ∈ map fd_id (wd_dependencies r) ↔
         reachable (find_function cyclic_catalog) (f_dependencies main_func) dep_id ∧
         in_catalog cyclic_catalog dep_id) ∧
      NoDup (map fd_id (wd_dependencies r)) ∧
      wd_total_dependencies r = Z.of_nat (length (wd_dependencies r)).
Proof.
  eexists. split; [vm_compute; reflexivity|].
  eapply (with_deps_answer (store_of cyclic_catalog None) "A" "t1").
  - reflexivity.
  - vm_compute. reflexivity.
Defined.

(** X15: a successful answer of [get_current_task_context] that names a
    current task lists as dependencies exactly the ids reachable from the
    dependencies of that task's definition that have a catalog entry, each
    once and each with the status of its task state ("unknown" without
    one), and reports the length of the list as the total. *)
Theorem context_answer_dependencies st now r functions progress current :
  read_functions st = Ok functions →
  read_progress st now = Ok progress →
  get_current_task_context st now = Success r →
  tc_current_task r = Some current →
  ∃ func_def,
    make_func_map functions !! ct_task_id current = Some func_def ∧
    (∀ dep_id,
       dep_id ∈ map fb_id (tc_dependencies r) ↔
       reachable (fun d => make_func_map functions !! d) (f_dependencies func_def) dep_id ∧
       in_catalog functions dep_id) ∧
    NoDup (map fb_id (tc_dependencies r)) ∧
    (∀ dep, dep ∈ tc_dependencies r →
       fb_status dep =
         match dict_get (fb_id dep) (p_tasks progress) with
         | Some dep_task =>
             match t_status dep_task with
             | PENDING => "pending"
             | IN_PROGRESS => "in_progress"
             | COMPLETED => "completed"
             | BLOCKED => "blocked"
             end
         | None => "unknown"
         end) ∧
    tc_total_dependencies r = Z.of_nat (length (tc_dependencies r)).
Proof.
  intros Hf Hp. unfold get_current_task_context. rewrite Hp, Hf.
  destruct (rate_raises (p_summary progress)); [done|].
  destruct (resolve_current_task _ _) as [[k t]|]; [|by intros [= <-]].
  destruct (make_func_map functions !! t_id t) as [func_def|] eqn:Hdef; [|done].
  intros [= <-]. simpl. intros [= <-]. simpl. exists func_def. split; [done|].
  set (closure := all_dep_ids (collect_deps functions
                                 (fun dep_id => make_func_map functions !! dep_id)
                                 (f_dependencies func_def))).
  assert (map fb_id (map (func_brief progress)
                       (omap (fun func_id => make_func_map functions !! func_id)
                          (set_to_list closure)))
          = map f_id (omap (fun func_id => make_func_map functions !! func_id)
                        (set_to_list closure))) as Hids
    by (rewrite map_map; by apply map_ext).
  rewrite Hids. destruct (listed_ids functions closure) as [Hin Hnd].
  split; [|split; [done|split; [|by rewrite length_map]]].
  - intros dep_id. rewrite Hin. subst closure.
    rewrite (collect_deps_reachable functions); [done|].
    intros d f H. by apply make_func_map_Some in H as [? _].
  - intros dep Hdep. apply list_elem_of_In, in_map_iff in Hdep as (f & <- & _).
    simpl. unfold status_of.
    destruct (dict_get (f_id f) (p_tasks progress)) as [dep_task|]; [|done].
    by destruct (t_status dep_task).
Qed.

Lemma context_answer_dependencies_witness :
  ∃ r current,
    get_current_task_context
      (store_of chain_catalog (Some (progress_of [task "A" IN_PROGRESS]))) "t1"
    = Success r ∧
    tc_current_task r = Some current ∧
    ∃ func_def,
      make_func_map chain_catalog !! ct_task_id current = Some func_def ∧
      (∀ dep_id,
         dep_id ∈ map fb_id (tc_dependencies r) ↔
         reachable (fun d => make_func_map chain_catalog !! d)
           (f_dependencies func_def) dep_id ∧
         in_catalog chain_catalog dep_id) ∧
      NoDup (map fb_id (tc_dependencies r)) ∧
      (∀ dep, dep ∈ tc_dependencies r →
         fb_status dep =
           match dict_get (fb_id dep) (p_tasks (progress_of [task "A" IN_PROGRESS])) with
           | Some dep_task =>
               match t_status dep_task with
               | PENDING => "pending"
               | IN_PROGRESS => "in_progress"
               | COMPLETED => "completed"
               | BLOCKED => "blocked"
               end
           | None => "unknown"
           end) ∧
      tc_total_dependencies r = Z.of_nat (length (tc_dependencies r)).
Proof.
  do 2 eexists. split; [vm_compute; reflexivity|]. split; [reflexivity|].
  eapply (context_answer_dependencies
            (store_of chain_catalog (Some (progress_of [task "A" IN_PROGRESS]))) "t1").
  - reflexivity.
  - reflexivity.
  - vm_compute. reflexivity.
  - reflexivity.
Defined.

(** ** Catalog queries of storage.py *)

(** X16: [get_functions_by_ids] on a readable catalog answers in request
    order and skips the ids that the catalog does not hold: the ids of the
    result are the requested ids with the unknown ones filtered out
    (repeated requests stay repeated), and every result is a catalog
    entry. *)
Theorem functions_by_ids_in_request_order st func_ids functions :
  read_functions st = Ok functions →
  ∃ found,
    get_functions_by_ids st func_ids = Ok found ∧
    map f_id found
    = filter (fun func_id => is_Some (find_function functions func_id)) func_ids ∧
    (∀ func, func ∈ found → func ∈ functions) ∧
    (length found ≤ length func_ids)%nat.
Proof.
  intros Hf. unfold get_functions_by_ids. rewrite Hf. simpl. eexists.
  split; [reflexivity|]. split; [|split].
  - rewrite omap_lookup_ids. apply list_filter_iff. intros func_id.
    by rewrite make_func_map_is_Some, find_function_is_Some.
  - intros func Hin. apply list_elem_of_omap in Hin as (id & _ & Hid).
    by apply make_func_map_Some in Hid as [? _].
  - rewrite <- (length_map f_id), omap_lookup_ids. apply length_filter.
Qed.

Lemma functions_by_ids_in_request_order_witness :
  ∃ found,
    get_functions_by_ids (store_of chain_catalog None) ["C"; "Z"; "A"; "C"] = Ok found ∧
    map f_id found
    = filter (fun func_id => is_Some (find_function chain_catalog func_id))
        ["C"; "Z"; "A"; "C"] ∧
    (∀ func, func ∈ found → func ∈ chain_catalog) ∧
    (length found ≤ length ["C"; "Z"; "A"; "C"])%nat.
Proof.
  apply (functions_by_ids_in_request_order (store_of chain_catalog None)
           ["C"; "Z"; "A"; "C"] chain_catalog).
  reflexivity.
Defined.

(** X17: on a readable catalog [get_all_function_ids] lists one id per
    catalog entry, in catalog order, and an id is in that list exactly when
    [get_function_by_id] finds an entry for it, which then carries that
    id. *)
Theorem all_function_ids_are_found st functions :
  read_functions st = Ok functions →
  ∃ ids,
    get_all_function_ids st = Ok ids ∧
    ids = map f_id functions ∧
    ∀ func_id,
      func_id ∈ ids ↔
      ∃ func, get_function_by_id st func_id = Ok (Some func) ∧ f_id func = func_id.
Proof.
  intros Hf. unfold get_all_function_ids, get_function_by_id. rewrite Hf. simpl.
  eexists. split; [reflexivity|]. split; [reflexivity|].
  intros func_id. split.
  - intros Hin. apply list_elem_of_In, in_map_iff in Hin as (g & Hg & Hgin).
    destruct (in_catalog_find functions func_id) as [func Hfind].
    { exists g. split; [by apply list_elem_of_In | done]. }
    exists func. rewrite Hfind. split; [done|]. by apply find_function_Some in Hfind as [_ ?].
  - intros (func & Hfind & Hid). injection Hfind as Hfind.
    apply find_function_Some in Hfind as [Hin _].
    apply list_elem_of_In, in_map_iff. exists func. split; [done | by apply list_elem_of_In].
Qed.

Lemma all_function_ids_are_found_witness :
  ∃ ids,
    get_all_function_ids (store_of chain_catalog None) = Ok ids ∧
    ids = map f_id chain_catalog ∧
    ∀ func_id,
      func_id ∈ ids ↔
      ∃ func, get_function_by_id (store_of chain_catalog None) func_id = Ok (Some func) ∧
              f_id func = func_id.
Proof.
  apply (all_function_ids_are_found (store_of chain_catalog None) chain_catalog).
  reflexivity.
Defined.

(** ** Choosing the current task *)

Lemma scan_first_pending_spec items first_pending_task :
  scan_first_pending items None first_pending_task =
  (find is_in_progress_item items,
   match first_pending_task with
   | Some entry => Some entry
   | None => find is_pending_item (before_in_progress items)
   end).
Proof.
  revert first_pending_task.
  induction items as [|[func_id task] rest IH]; intros fp.
  - simpl. by destruct fp.
  - simpl. unfold is_in_progress_item, is_pending_item. simpl.
    destruct (bool_decide (t_status task = IN_PROGRESS)) eqn:Hip; simpl.
    + by destruct fp.
    + destruct (bool_decide (t_status task = PENDING)) eqn:Hpe; simpl.
      * destruct fp as [entry|]; simpl; by rewrite IH.
      * rewrite IH. by destruct fp.
Qed.

Lemma find_before_in_progress (items : odict TaskStatus) :
  find is_in_progress_item items = None → before_in_progress items = items.
Proof.
  induction items as [|item rest IH]; simpl; [done|].
  destruct (is_in_progress_item item); [done|]. intros H. by rewrite IH.
Qed.

Lemma select_current_task_spec tasks :
  select_current_task tasks =
  match find is_in_progress_item tasks with
  | Some entry => Some entry
  | None => find is_pending_item tasks
  end.
Proof.
  unfold select_current_task. rewrite scan_first_pending_spec.
  destruct (find is_in_progress_item tasks) eqn:E; [done|].
  by rewrite find_before_in_progress.
Qed.

Lemma find_ext_in {A} (f g : A → bool) (l : list A) :
  (∀ x, x ∈ l → f x = g x) → find f l = find g l.
Proof.
  induction l as [|x l IH]; intros H; simpl; [done|].
  rewrite (H x) by left. destruct (g x); [done|]. apply IH.
  intros y Hy. apply H. by right.
Qed.

(** X18: [get_current_task] picks the first in-progress task of the task
    mapping when there is one, and otherwise the first pending task,
    whether or not its dependencies are completed; with neither it has no
    task.  The choice does not look at the catalog. *)
Theorem simple_selection_ignores_readiness (tasks : odict TaskStatus) :
  (∀ item, find is_in_progress_item tasks = Some item →
           select_current_task tasks = Some item) ∧
  (find is_in_progress_item tasks = None →
   select_current_task tasks = find is_pending_item tasks) ∧
  (select_current_task tasks = None ↔
   ∀ item, item ∈ tasks →
           t_status item.2 ≠ IN_PROGRESS ∧ t_status item.2 ≠ PENDING).
Proof.
  rewrite select_current_task_spec. split; [|split].
  - by intros item ->.
  - by intros ->.
  - split.
    + intros H item Hin.
      destruct (find is_in_progress_item tasks) eqn:Hip; [done|].
      apply list_elem_of_In in Hin.
      pose proof (find_none _ _ Hip item Hin) as H1.
      pose proof (find_none _ _ H item Hin) as H2.
      unfold is_in_progress_item in H1. unfold is_pending_item in H2.
      apply bool_decide_eq_false_1 in H1. apply bool_decide_eq_false_1 in H2. done.
    + intros H.
      destruct (find is_in_progress_item tasks) as [e|] eqn:Hip.
      * apply find_some in Hip as [Hin Hst]. apply list_elem_of_In in Hin.
        unfold is_in_progress_item in Hst. apply bool_decide_eq_true_1 in Hst.
        by destruct (H e Hin).
      * destruct (find is_pending_item tasks) as [e|] eqn:Hpe; [|done].
        apply find_some in Hpe as [Hin Hst]. apply list_elem_of_In in Hin.
        unfold is_pending_item in Hst. apply bool_decide_eq_true_1 in Hst.
        by destruct (H e Hin).
Qed.

(** X19: when every pending task is ready, [get_current_task] and
    [get_current_task_context] choose the same task.  The context tool
    first computes the completion rate, which [get_current_task] does not:
    when that division overflows the context tool raises; otherwise the two
    answer alike, both failing with the same error, or both succeeding with
    the same task id, status and notes (or both without a task). *)
Theorem tools_agree_when_pending_ready st now progress functions :
  read_progress st now = Ok progress →
  read_functions st = Ok functions →
  (∀ item, item ∈ p_tasks progress → t_status item.2 = PENDING →
           is_task_ready (make_func_map functions) (p_tasks progress) item.1 = true) →
  select_current_task (p_tasks progress)
  = resolve_current_task (make_func_map functions) (p_tasks progress) ∧
  if rate_raises (p_summary progress)
  then get_current_task_context st now = Uncaught "OverflowError"
  else
    match get_current_task st now, get_current_task_context st now with
    | Success detail, Success context =>
        (fun d => (td_task_id d, td_status d, td_notes d)) <$> detail
        = (fun c => (ct_task_id c, ct_status c, ct_notes c)) <$> tc_current_task context
    | Failure e, Failure e' => e = e'
    | _, _ => False
    end.
Proof.
  intros Hp Hf Hready.
  assert (select_current_task (p_tasks progress)
          = resolve_current_task (make_func_map functions) (p_tasks progress)) as Hsame.
  { rewrite select_current_task_spec, resolve_current_task_spec.
    destruct (find is_in_progress_item (p_tasks progress)) eqn:Hip; [done|].
    rewrite find_before_in_progress by done.
    apply find_ext_in. intros item Hin.
    unfold is_pending_item, is_ready_pending_item.
    destruct (bool_decide (t_status item.2 = PENDING)) eqn:E; [|done].
    apply bool_decide_eq_true_1 in E. by rewrite (Hready item Hin E). }
  split; [done|].
  unfold get_current_task, get_current_task_context. rewrite Hp, Hf, Hsame.
  destruct (rate_raises (p_summary progress)); [done|].
  destruct (resolve_current_task _ _) as [[k t]|]; [|done].
  by destruct (make_func_map functions !! t_id t).
Qed.

Lemma tools_agree_when_pending_ready_witness :
  let progress := progress_of [task "A" PENDING; task "B" COMPLETED] in
  let st := store_of chain_catalog (Some progress) in
  select_current_task (p_tasks progress)
  = resolve_current_task (make_func_map chain_catalog) (p_tasks progress) ∧
  if rate_raises (p_summary progress)
  then get_current_task_context st "t1" = Uncaught "OverflowError"
  else
    match get_current_task st "t1", get_current_task_context st "t1" with
    | Success detail, Success context =>
        (fun d => (td_task_id d, td_status d, td_notes d)) <$> detail
        = (fun c => (ct_task_id c, ct_status c, ct_notes c)) <$> tc_current_task context
    | Failure e, Failure e' => e = e'
    | _, _ => False
    end.
Proof.
  apply (tools_agree_when_pending_ready
           (store_of chain_catalog
              (Some (progress_of [task "A" PENDING; task "B" COMPLETED]))) "t1"
           (progress_of [task "A" PENDING; task "B" COMPLETED]) chain_catalog
           eq_refl eq_refl).
  intros item Hin Hst.
  apply elem_of_cons in Hin as [->|Hin]; [vm_compute; reflexivity|].
  apply elem_of_cons in Hin as [->|Hin]; [discriminate|].
  by apply elem_of_nil in Hin.
Defined.

(** X20: completing a dependency unblocks its dependents: after a
    successful transition of an id to completed, every catalogued task
    whose other declared dependencies were already completed is ready on
    the stored task states; in particular a task that was ready stays
    ready. *)
Theorem completing_dependency_unblocks st dep_id notes clock st' r progress
    func_map func_id func :
  update_task_status st dep_id "completed" notes clock = (st', Success r) →
  read_progress st (now_init clock) = Ok progress →
  func_map !! func_id = Some func →
  (∀ other, other ∈ f_dependencies func → other ≠ dep_id →
            dep_completed (p_tasks progress) other) →
  ∃ progress',
    progress_json st' = Some (Ok progress') ∧
    is_task_ready func_map (p_tasks progress') func_id = true.
Proof.
  intros H Hp Hf Hothers. apply update_task_status_inv in H
    as (ns & progress0 & q & Hs & Hp0 & _ & Hq & -> & _).
  rewrite Hp in Hp0. injection Hp0 as <-.
  assert (ns = COMPLETED) as -> by (vm_compute in Hs; congruence).
  eexists. split; [reflexivity|]. simpl.
  apply is_task_ready_spec. split; [by eexists|]. right.
  unfold declared_dependencies. rewrite Hf. intros d Hd. unfold dep_completed.
  destruct (decide (d = dep_id)) as [->|Hne].
  - destruct Hq as [(_ & ->)|(old & _ & ->)]; simpl; rewrite dict_get_set_eq;
      by eexists.
  - destruct (Hothers d Hd Hne) as (t & Ht & Hst). exists t. split; [|done].
    destruct Hq as [(_ & ->)|(old & _ & ->)]; simpl;
      by rewrite dict_get_set_ne.
Qed.

Lemma completing_dependency_unblocks_witness :
  ∃ progress',
    progress_json
      (update_task_status
         (store_of chain_catalog (Some (progress_of [task "A" PENDING; task "B" PENDING])))
         "B" "completed" None sample_clock).1
    = Some (Ok progress') ∧
    is_task_ready (make_func_map chain_catalog) (p_tasks progress') "A" = true.
Proof.
  eapply (completing_dependency_unblocks
            (store_of chain_catalog (Some (progress_of [task "A" PENDING; task "B" PENDING])))
            "B" None sample_clock _ _
            (progress_of [task "A" PENDING; task "B" PENDING])
            (make_func_map chain_catalog) "A" (unit_of_work "A" ["B"])).
  - reflexivity.
  - reflexivity.
  - vm_compute. reflexivity.
  - intros other Hin Hne. apply list_elem_of_singleton in Hin. congruence.
Defined.

Lemma find_in_progress_set function_id (task : TaskStatus) (tasks : odict TaskStatus) :
  t_status task = IN_PROGRESS →
  (∀ item, item ∈ tasks → item.1 ≠ function_id → t_status item.2 ≠ IN_PROGRESS) →
  find is_in_progress_item (dict_set function_id task tasks) = Some (function_id, task).
Proof.
  intros Hst. induction tasks as [|[k t] tasks IH]; intros Hothers; simpl.
  - unfold is_in_progress_item. simpl. by rewrite bool_decide_eq_true_2.
  - destruct (String.eqb k function_id) eqn:E; simpl.
    + unfold is_in_progress_item. simpl. by rewrite bool_decide_eq_true_2.
    + apply String.eqb_neq in E. unfold is_in_progress_item at 1. simpl.
      rewrite bool_decide_eq_false_2 by (apply (Hothers (k, t)); [left | done]).
      apply IH. intros item Hin. apply Hothers. by right.
Qed.

(** X21: starting a task makes it the current one: after a successful
    transition of an id to in_progress, when no task state under another
    id is in progress, the resolution of [get_current_task_context] on the
    stored task states selects the task state of that id, and the stored
    current-task pointer names the same id. *)
Theorem started_task_becomes_current st function_id notes clock st' r progress func_map :
  update_task_status st function_id "in_progress" notes clock = (st', Success r) →
  read_progress st (now_init clock) = Ok progress →
  (∀ item, item ∈ p_tasks progress → item.1 ≠ function_id →
           t_status item.2 ≠ IN_PROGRESS) →
  ∃ progress' task,
    progress_json st' = Some (Ok progress') ∧
    resolve_current_task func_map (p_tasks progress') = Some (function_id, task) ∧
    select_current_task (p_tasks progress') = Some (function_id, task) ∧
    dict_get function_id (p_tasks progress') = Some task ∧
    t_status task = IN_PROGRESS ∧
    s_current_task (p_summary progress') = Some function_id.
Proof.
  intros H Hp Hothers. apply update_task_status_inv in H
    as (ns & progress0 & q & Hs & Hp0 & _ & Hq & -> & _).
  rewrite Hp in Hp0. injection Hp0 as <-.
  assert (ns = IN_PROGRESS) as -> by (vm_compute in Hs; congruence).
  destruct Hq as [(_ & ->)|(old & _ & ->)]; do 2 eexists;
    (split; [reflexivity|]); simpl;
    rewrite resolve_current_task_spec, select_current_task_spec,
      find_in_progress_set by done;
    rewrite dict_get_set_eq; done.
Qed.

Lemma started_task_becomes_current_witness :
  ∃ progress' task,
    progress_json
      (update_task_status sample_store "A" "in_progress" None sample_clock).1
    = Some (Ok progress') ∧
    resolve_current_task (make_func_map chain_catalog) (p_tasks progress')
    = Some ("A", task) ∧
    select_current_task (p_tasks progress') = Some ("A", task) ∧
    dict_get "A" (p_tasks progress') = Some task ∧
    t_status task = IN_PROGRESS ∧
    s_current_task (p_summary progress') = Some "A".
Proof.
  eapply (started_task_becomes_current sample_store "A" None sample_clock _ _
            sample_progress (make_func_map chain_catalog)).
  - reflexivity.
  - reflexivity.
  - intros item Hin _.
    apply elem_of_cons in Hin as [->|Hin]; [discriminate|].
    apply elem_of_cons in Hin as [->|Hin]; [discriminate|].
    by apply elem_of_nil in Hin.
Defined.

(** X22: an in-progress task without a definition stops both tools: when
    the id recorded in the first in-progress task state has no catalog
    entry, [get_current_task] fails with the error that names that id,
    whatever pending tasks are ready, and so does
    [get_current_task_context] unless its rate computation overflows
    first, in which case it raises. *)
Theorem stale_in_progress_fails st now progress functions item :
  read_progress st now = Ok progress →
  read_functions st = Ok functions →
  find is_in_progress_item (p_tasks progress) = Some item →
  ¬ in_catalog functions (t_id item.2) →
  get_current_task st now = Failure ("找不到函数定义: " +:+ t_id item.2) ∧
  get_current_task_context st now
  = if rate_raises (p_summary progress) then Uncaught "OverflowError"
    else Failure ("找不到函数定义: " +:+ t_id item.2).
Proof.
  intros Hp Hf Hfind Hcat.
  unfold get_current_task_context, get_current_task. rewrite Hp, Hf.
  rewrite resolve_current_task_spec, select_current_task_spec, Hfind.
  destruct item as [k t]. simpl in *.
  by rewrite (make_func_map_None _ _ Hcat).
Qed.

Lemma stale_in_progress_fails_witness :
  let progress :=
    mkProgressData "" (mkProjectProgress "demo" 1 (10 ^ 400) 0 0 0 None)
      [task "C" PENDING; task "X" IN_PROGRESS] [] in
  let st := store_of chain_catalog (Some progress) in
  get_current_task st "t1" = Failure ("找不到函数定义: " +:+ "X") ∧
  get_current_task_context st "t1"
  = if rate_raises (p_summary progress) then Uncaught "OverflowError"
    else Failure ("找不到函数定义: " +:+ "X").
Proof.
  apply (stale_in_progress_fails
           (store_of chain_catalog
              (Some (mkProgressData "" (mkProjectProgress "demo" 1 (10 ^ 400) 0 0 0 None)
                       [task "C" PENDING; task "X" IN_PROGRESS] []))) "t1"
           (mkProgressData "" (mkProjectProgress "demo" 1 (10 ^ 400) 0 0 0 None)
              [task "C" PENDING; task "X" IN_PROGRESS] []) chain_catalog
           (task "X" IN_PROGRESS) eq_refl eq_refl eq_refl).
  intros Hcat. apply find_function_None in Hcat; [done | reflexivity].
Defined.



(** ** Errors of the by-id tools *)

(** X24: on a readable catalog that does not hold the requested id,
    [get_function_with_deps] and [get_function_def] fail with the error
    that names the id; they do so before reading the progress file, so its
    state does not matter. *)
Theorem unknown_function_rejected st function_id now functions :
  read_functions st = Ok functions →
  ¬ in_catalog functions function_id →
  get_function_with_deps st function_id now = Failure ("找不到函数: " +:+ function_id) ∧
  get_function_def st function_id now = Failure ("找不到函数: " +:+ function_id).
Proof.
  intros Hf Hcat. apply find_function_None in Hcat.
  unfold get_function_with_deps, get_function_def, get_function_by_id.
  rewrite Hf. simpl. by rewrite Hcat.
Qed.

Lemma unknown_function_rejected_witness :
  let st := mkStore "demo" (Ok chain_catalog) (Some (Raise "broken progress")) true "" None in
  get_function_with_deps st "Z" "t1" = Failure ("找不到函数: " +:+ "Z") ∧
  get_function_def st "Z" "t1" = Failure ("找不到函数: " +:+ "Z").
Proof.
  apply (unknown_function_rejected
           (mkStore "demo" (Ok chain_catalog) (Some (Raise "broken progress")) true "" None)
           "Z" "t1" chain_catalog eq_refl).
  intros Hcat. apply find_function_None in Hcat; [done | reflexivity].
Defined.

(** X25: a transition of an id that already has a task state does not
    consult the catalog: with a readable progress file and a working
    store it succeeds even when the catalog cannot be read, while the same
    call for an id without a task state fails with the error of that
    read. *)
Theorem existing_task_update_without_catalog st function_id status notes clock
    new_status progress storage_error :
  parse_status status = Some new_status →
  read_progress st (now_init clock) = Ok progress →
  writable st = true →
  read_functions st = Raise storage_error →
  match dict_get function_id (p_tasks progress) with
  | Some old =>
      ∃ st' r progress',
        update_task_status st function_id status notes clock = (st', Success r) ∧
        progress_json st' = Some (Ok progress') ∧
        dict_get function_id (p_tasks progress')
        = Some (mkTaskStatus (t_id old) new_status notes (now_task clock))
  | None =>
      update_task_status st function_id status notes clock = (st, Failure storage_error)
  end.
Proof.
  intros Hs Hp Hw Hf.
  destruct (dict_get function_id (p_tasks progress)) as [old|] eqn:Hget.
  - rewrite (update_task_status_existing st function_id status notes clock
               new_status progress old Hs Hp Hget).
    rewrite finish_update_spec, Hw. do 3 eexists. split; [reflexivity|].
    split; [reflexivity|]. simpl. apply dict_get_set_eq.
  - unfold update_task_status, get_function_by_id. by rewrite Hs, Hp, Hget, Hf.
Qed.

Lemma existing_task_update_without_catalog_witness :
  let st := mkStore "demo" (Raise "no catalog") (Some (Ok sample_progress)) true "" None in
  (∃ st' r progress',
     update_task_status st "A" "blocked" None sample_clock = (st', Success r) ∧
     progress_json st' = Some (Ok progress') ∧
     dict_get "A" (p_tasks progress')
     = Some (mkTaskStatus "A" BLOCKED None (now_task sample_clock))) ∧
  update_task_status st "C" "blocked" None sample_clock = (st, Failure "no catalog").
Proof.
  split.
  - apply (existing_task_update_without_catalog
             (mkStore "demo" (Raise "no catalog") (Some (Ok sample_progress)) true "" None)
             "A" "blocked" None sample_clock BLOCKED sample_progress "no catalog"
             eq_refl eq_refl eq_refl eq_refl).
  - apply (existing_task_update_without_catalog
             (mkStore "demo" (Raise "no catalog") (Some (Ok sample_progress)) true "" None)
             "C" "blocked" None sample_clock BLOCKED sample_progress "no catalog"
             eq_refl eq_refl eq_refl eq_refl).
Defined.
